(** * DayFlow: the timeline placement, lane layout and export logic

    A shallow embedding of the logic inside the [DayFlowPreview] component
    (both variants of the component are covered; where they differ the
    difference is a parameter).

    Conventions.
    - A JavaScript number is an exact rational ([Q]) where the source can
      hold a fraction (pixel coordinates, the zoom factor [pxPerMin]) and an
      integer ([Z]) where the source only ever stores the result of
      [Math.round], [parseInt] or integer arithmetic (minute offsets,
      durations).  Where the source's own arithmetic on fractions is not
      exact in doubles (the percentages of the blocks), the rounding to a
      double is written out ([roundDouble]).  NaN and the infinities are
      outside the model.
    - The React state of the component is threaded explicitly: a handler is a
      function from the state to an [Outcome], and an updater
      [setItems (prev => f prev)] is [f] on the item list.
    - A handler of the source has no [return] with a value and throws
      nothing; what it hands back to its caller is recorded in [Outcome]. *)

From Stdlib Require Import ZArith QArith Qround Qminmax Lia Lqa String Ascii.
From Stdlib Require Import Sorting.Sorted Sorting.Permutation.
From stdpp Require Import base gmap strings list pretty.

Local Open Scope Z_scope.

(* ===================================================================== *)
(** ** Types *)
(* ===================================================================== *)

(** [interface Item]; [notes?: string] is an optional field. *)
Record Item := mkItem {
  id : string;
  title : string;
  startMin : Z;          (* minutes from day start *)
  durationMin : Z;
  color : string;
  notes : option string;
}.

(** [interface PresetDef]; [color?: string] is optional. *)
Record PresetDef := mkPreset {
  key : string;
  label : string;
  standardMin : Z;
  presetColor : option string;
}.

(** The value of an [<input type="time">], after
    [s.split(":").map(Number)]: ["11:00"] is [{| hh := 11; mm := 0 |}]. *)
Record Clock := mkClock { hh : Z; mm : Z }.

(** Spread updates [{ ...i, field: v }]. *)
Definition set_startMin (v : Z) (i : Item) : Item :=
  mkItem (id i) (title i) v (durationMin i) (color i) (notes i).
Definition set_durationMin (v : Z) (i : Item) : Item :=
  mkItem (id i) (title i) (startMin i) v (color i) (notes i).
Definition set_color (v : string) (i : Item) : Item :=
  mkItem (id i) (title i) (startMin i) (durationMin i) v (notes i).

Definition BRAND_sand : string := "#8F7A4A".


(* ===================================================================== *)
(** ** Utils *)
(* ===================================================================== *)

(** [minutesBetween(start, end)]. *)
Definition minutesBetween (s e : Clock) : Z :=
  hh e * 60 + mm e - (hh s * 60 + mm s).

(** [clamp(n, min, max) = Math.max(min, Math.min(max, n))], on integers and
    on fractional numbers. *)
Definition clamp (n lo hi : Z) : Z := Z.max lo (Z.min hi n).
Definition clampQ (n lo hi : Q) : Q := Qmax lo (Qmin hi n).

(** [Math.round]: the nearest integer, a tie going up: [floor (x + 1/2)]. *)
Definition Math_round (x : Q) : Z := Qfloor (x + (1 # 2)).

(** [a ?? 0] on an optional number. *)
Definition orZero (a : option Q) : Q := default 0%Q a.

(* ===================================================================== *)
(** ** Component state that the placement logic reads *)
(* ===================================================================== *)

Record Settings := mkSettings {
  startTime : Clock;
  endTime : Clock;
  slotSize : Z;
  snap : bool;
  pxPerMin : Q;
  demoMode : bool;
  (** the item count at which a drop is refused in demo mode: 100 in one
      variant of the component, 6 in the other *)
  maxItems : nat;
}.

(** [totalMinutes = clamp(minutesBetween(startTime, endTime), 60, 18 * 60)]. *)
Definition totalMinutes (c : Settings) : Z :=
  clamp (minutesBetween (startTime c) (endTime c)) 60 (18 * 60).

(** [gridHeight = totalMinutes * pxPerMin]. *)
Definition gridHeight (c : Settings) : Q :=
  (inject_Z (totalMinutes c) * pxPerMin c)%Q.

(** What [handleDragEnd] reads from the drag event and from the grid
    element: [ev?.active?.rect?.current?.translated?.top] and [.height]
    (absent when any link of the chain is), and
    [gridRef.current.getBoundingClientRect().top]. *)
Record DragEvent := mkDragEvent {
  translatedTop : option Q;
  translatedHeight : option Q;
  rectTop : Q;
}.

(** [pointerY = (top ?? 0) + (height ?? 0) / 2]. *)
Definition pointerY (ev : DragEvent) : Q :=
  (orZero (translatedTop ev) + orZero (translatedHeight ev) / 2)%Q.

(** The pixel-to-offset conversion, before snapping; [y] is
    [pointerY - rect.top]:
    [relY = Math.max(0, Math.min(gridHeight, y))] (written
    [clamp(y, 0, gridHeight)] in the other variant), then
    [Math.round(relY / pxPerMin)]. *)
Definition pixelToOffset (c : Settings) (y : Q) : Z :=
  let relY := clampQ y 0%Q (gridHeight c) in
  Math_round (relY / pxPerMin c)%Q.

(** [Math.round(offsetMin / slotSize) * slotSize]. *)
Definition snapTo (offsetMin slot : Z) : Z :=
  Math_round (inject_Z offsetMin / inject_Z slot)%Q * slot.

(** The offset [handleDragEnd] computes:
    [let offsetMin = Math.round(relY / pxPerMin);
     if (snap) offsetMin = Math.round(offsetMin / slotSize) * slotSize;] *)
Definition dropOffset (c : Settings) (ev : DragEvent) : Z :=
  let offsetMin := pixelToOffset c (pointerY ev - rectTop ev)%Q in
  if snap c then snapTo offsetMin (slotSize c) else offsetMin.

(** The slot sizes offered by the settings panel. *)
Definition slotSizes : list Z := [5; 10; 15; 30; 45; 60].

(* ===================================================================== *)
(** ** The item list and its handlers *)
(* ===================================================================== *)

(** The part of the component state the handlers below read and write. *)
Record State := mkState {
  items : list Item;
  selected : option Item;
  draggingPreset : option PresetDef;
  draggingItemId : option string;
}.

(** The two failures the specification names.  The source has no value,
    exception or message for either. *)
Inductive StoreError := NotFound | CapacityExceeded.

(** What a handler gives back: the value it returns to its caller ([None]
    is JavaScript's [undefined]), the messages it shows with [alert], and
    the next state. *)
Record Outcome := mkOutcome {
  returned : option StoreError;
  alerted : list string;
  state : State;
}.

(** Truthiness of a string state variable, [if (itemId)]: neither [null]
    nor empty. *)
Definition truthy (s : option string) : option string :=
  match s with
  | Some EmptyString => None
  | other => other
  end.

(** [handleDragStart]: which of [preset] and [itemId] the dragged element
    carries in its data. *)
Definition handleDragStart (preset : option PresetDef) (itemId : option string)
    (st : State) : State :=
  mkState (items st) (selected st)
    (match preset with Some p => Some p | None => draggingPreset st end)
    (match truthy itemId with Some d => Some d | None => draggingItemId st end).

(** The item a dropped preset becomes. *)
Definition newItem (p : PresetDef) (offsetMin : Z) (uuid : string) : Item :=
  mkItem uuid (label p) offsetMin (standardMin p)
         (default BRAND_sand (truthy (presetColor p))) (Some EmptyString).

(** [prev => demoMode && prev.length >= N ? prev : [...prev, newItem]]. *)
Definition insertItem (c : Settings) (it : Item) (prev : list Item) : list Item :=
  if demoMode c && (maxItems c <=? length prev)%nat then prev else prev ++ [it].

(** [prev => prev.map(i => i.id === draggingItemId
      ? { ...i, startMin: clamp(offsetMin, 0, Math.max(0, totalMinutes - i.durationMin)) }
      : i)]. *)
Definition moveItem (c : Settings) (d : string) (offsetMin : Z)
    (prev : list Item) : list Item :=
  map (fun i =>
         if String.eqb (id i) d
         then set_startMin
                (clamp offsetMin 0 (Z.max 0 (totalMinutes c - durationMin i))) i
         else i) prev.

(** [handleDragEnd].  [grid] tells whether [gridRef.current] is set; [uuid]
    is the value [uuid()] draws. *)
Definition handleDragEnd (c : Settings) (grid : bool) (ev : DragEvent)
    (uuid : string) (st : State) : Outcome :=
  if negb grid then
    mkOutcome None [] (mkState (items st) (selected st) None None)
  else
    let offsetMin := dropOffset c ev in
    let items1 :=
      match draggingPreset st with
      | Some p => insertItem c (newItem p offsetMin uuid) (items st)
      | None => items st
      end in
    let items2 :=
      match truthy (draggingItemId st) with
      | Some d => moveItem c d offsetMin items1
      | None => items1
      end in
    mkOutcome None [] (mkState items2 (selected st) None None).

(** [upsertItem(u)]: [prev.map(i => i.id === u.id ? u : i)], then the editor
    closes. *)
Definition upsertItem (u : Item) (st : State) : Outcome :=
  mkOutcome None []
    (mkState (map (fun i => if String.eqb (id i) (id u) then u else i) (items st))
             None (draggingPreset st) (draggingItemId st)).

(** [deleteItem(id)]. *)
Definition deleteItem (d : string) (st : State) : Outcome :=
  mkOutcome None []
    (mkState (filter (fun i => id i ≠ d) (items st))
             None (draggingPreset st) (draggingItemId st)).

(** The editor's duration field: [{ ...selected, durationMin:
    clamp(parseInt(e.target.value || "0"), 5, 12 * 60) }]; [v] is the parsed
    integer. *)
Definition editDuration (v : Z) (sel : Item) : Item :=
  set_durationMin (clamp v 5 (12 * 60)) sel.

(** The editor's start-time field: [offsetMin = hh * 60 + mm - (sh * 60 + sm)],
    [startMin: clamp(offsetMin, 0, Math.max(0, totalMinutes - selected.durationMin))]. *)
Definition editStart (c : Settings) (t : Clock) (sel : Item) : Item :=
  set_startMin
    (clamp (hh t * 60 + mm t - (hh (startTime c) * 60 + mm (startTime c))) 0
           (Z.max 0 (totalMinutes c - durationMin sel))) sel.

(** [applyPalette(colors)]: [if (!colors?.length) return;] then every item
    takes [colors[idx % colors.length]].  [None] is an absent list. *)
Definition applyPalette (colors : option (list string)) (prev : list Item)
    : list Item :=
  match colors with
  | None | Some [] => prev
  | Some cs =>
      imap (fun idx it => set_color (cs !!! (idx mod length cs)%nat) it) prev
  end.

(** *** Sequences of user operations *)

Inductive Op :=
| Drop (p : PresetDef) (ev : DragEvent) (uuid : string)
    (* a preset is dragged from the catalog and released *)
| Move (d : string) (ev : DragEvent)
    (* the item [d] is dragged and released *)
| Resize (d : string) (v : Z).
    (* the item [d] is opened in the editor, its duration set to [v], saved *)

(** The item the user clicks: [onClick={() => setSelected(it)}]. *)
Definition findItem (d : string) (l : list Item) : option Item :=
  List.find (fun i => String.eqb (id i) d) l.

(** One operation: a gesture is its start handler followed by its end
    handler over the mounted grid ([uuid()] is only called while a preset
    is dragged, so a move passes an unused value); a resize opens the
    clicked item in the editor, sets its duration and saves. *)
Definition step (c : Settings) (op : Op) (st : State) : State :=
  match op with
  | Drop p ev uuid =>
      state (handleDragEnd c true ev uuid (handleDragStart (Some p) None st))
  | Move d ev =>
      state (handleDragEnd c true ev EmptyString (handleDragStart None (Some d) st))
  | Resize d v =>
      match findItem d (items st) with
      | Some it => state (upsertItem (editDuration v it) st)
      | None => st
      end
  end.

Definition run (c : Settings) (ops : list Op) (st : State) : State :=
  fold_left (fun s op => step c op s) ops st.

Definition emptyState : State := mkState [] None None None.

(** The three range conditions on one item. *)
Definition inRange (total : Z) (i : Item) : bool :=
  (0 <=? startMin i) && (startMin i + durationMin i <=? total)
  && (5 <=? durationMin i) && (durationMin i <=? 720).

(* ===================================================================== *)
(** ** Sorting *)
(* ===================================================================== *)

(** [Array.prototype.sort(cmp)] is a stable sort: elements the comparator
    calls equal keep their order.  For a comparator that is a consistent
    ordering, which the two below are, the result is the one computed by
    stable insertion: each element goes before the first element it does not
    come after. *)
Fixpoint insert_by {A} (cmp : A -> A -> Z) (x : A) (l : list A) : list A :=
  match l with
  | [] => [x]
  | y :: l' => if cmp x y <=? 0 then x :: y :: l' else y :: insert_by cmp x l'
  end.

Definition sort_by {A} (cmp : A -> A -> Z) (l : list A) : list A :=
  foldr (insert_by cmp) [] l.

(** [(a, b) => a.startMin - b.startMin]. *)
Definition byStart (a b : Item) : Z := startMin a - startMin b.

(** [(a, b) => a.startMin - b.startMin || b.durationMin - a.durationMin]. *)
Definition byStartThenLonger (a b : Item) : Z :=
  if startMin a - startMin b =? 0
  then durationMin b - durationMin a
  else startMin a - startMin b.

(* ===================================================================== *)
(** ** Lane layout *)
(* ===================================================================== *)

(** [type Placed = { id: string; lane: number }]. *)
Record Placed := mkPlaced { placedId : string; lane : nat }.

(** [Array.prototype.findIndex]; [None] is the result [-1]. *)
Fixpoint findIndex {A} (p : A -> bool) (l : list A) : option nat :=
  match l with
  | [] => None
  | x :: l' => if p x then Some O else S <$> findIndex p l'
  end.

(** One turn of the loop [for (const it of sorted)], on the pair
    [(laneEnds, placed)]. *)
Definition placeItem (st : list Z * list Placed) (it : Item)
    : list Z * list Placed :=
  let '(laneEnds, placed) := st in
  match findIndex (fun e => e <=? startMin it) laneEnds with
  | None =>
      (laneEnds ++ [startMin it + durationMin it],
       placed ++ [mkPlaced (id it) (length laneEnds)])
  | Some l =>
      (<[l := startMin it + durationMin it]> laneEnds,
       placed ++ [mkPlaced (id it) l])
  end.

Definition laneLoop (sorted : list Item) : list Z * list Placed :=
  fold_left placeItem sorted ([], []).

(** [Object.fromEntries]: a later entry for a key replaces an earlier one. *)
Definition fromEntries (l : list (string * nat)) : gmap string nat :=
  fold_left (fun m kv => <[kv.1 := kv.2]> m) l ∅.

Record LaneLayout := mkLaneLayout {
  lanesCount : Z;
  byId : gmap string nat;
}.

(** The [laneLayout] memo. *)
Definition laneLayout (l : list Item) : LaneLayout :=
  let sorted := sort_by byStartThenLonger l in
  let '(laneEnds, placed) := laneLoop sorted in
  mkLaneLayout (Z.max 1 (Z.of_nat (length laneEnds)))
               (fromEntries (map (fun p => (placedId p, lane p)) placed)).

(** The number of lanes the loop opened, [laneEnds.length]. *)
Definition lanesUsed (l : list Item) : nat :=
  length (laneLoop (sort_by byStartThenLonger l)).1.

(** *** Vocabulary of the lane claims *)

Definition endMin (i : Item) : Z := startMin i + durationMin i.

(** [i] occupies the instant [t]: [t] lies in [[start, start + duration)].
    Instants are whole minutes: starts and ends are, so an item occupies an
    instant between two minutes exactly when it occupies the earlier one. *)
Definition active (t : Z) (i : Item) : bool :=
  (startMin i <=? t) && (t <? endMin i).

(** How many items of [l] occupy the instant [t]. *)
Definition activeAt (t : Z) (l : list Item) : nat :=
  length (List.filter (active t) l).

(** The ranges [[start, start + duration)] of [a] and [b] intersect. *)
Definition overlaps (a b : Item) : bool :=
  Z.max (startMin a) (startMin b) <? Z.min (endMin a) (endMin b).

(* ===================================================================== *)
(** ** Dates *)
(* ===================================================================== *)

(** A local date-time is counted in minutes from the local midnight of the
    schedule's [date] (seconds never show, and the model has no
    daylight-saving jumps): [parseISO(date + "T00:00:00")] is [0]. *)
Definition getMinutes (dt : Z) : Z := dt mod 60.
Definition getHours (dt : Z) : Z := (dt / 60) mod 24.

(** The calendar day, counted from [date]; the source reads it as
    [getFullYear()], [getMonth() + 1], [getDate()]. *)
Definition getDay (dt : Z) : Z := dt / 1440.

(** [setHours(dt, h)] and [setMinutes(dt, m)] replace one component and
    carry a value outside its range into the larger components. *)
Definition setHours (dt h : Z) : Z := dt - getHours dt * 60 + h * 60.
Definition setMinutes (dt m : Z) : Z := dt - getMinutes dt + m.
Definition addMinutes (dt n : Z) : Z := dt + n.

Definition pad2 (n : Z) : string :=
  if n <? 10 then "0" ++ pretty n else pretty n.

(** [format(dt, "h:mm a")]: ["2:00 PM"]. *)
Definition format_h_mm_a (dt : Z) : string :=
  let h := getHours dt mod 12 in
  pretty (if h =? 0 then 12 else h) ++ ":" ++ pad2 (getMinutes dt) ++ " "
  ++ (if getHours dt <? 12 then "AM" else "PM").

(** [timeLabelFromOffset(day, start, offsetMin)]; [dt0] is
    [parseISO(day + "T00:00:00")], or the present moment when [day] does
    not parse. *)
Definition timeLabelFromOffset (dt0 : Z) (start : Clock) (offsetMin : Z)
    : string :=
  let dt := setHours dt0 (hh start) in
  let dt := setMinutes dt (mm start + offsetMin) in
  format_h_mm_a dt.

(* ===================================================================== *)
(** ** Export *)
(* ===================================================================== *)

(** [`${timeLabelFromOffset(date, startTime, i.startMin)} — ${i.title} (${i.durationMin} min)`]. *)
Definition textBase (start : Clock) (i : Item) : string :=
  timeLabelFromOffset 0 start (startMin i) ++ " — " ++ title i
  ++ " (" ++ pretty (durationMin i) ++ " min)".

(** [i.notes ? `${base}\n    Notes: ${i.notes}` : base]. *)
Definition textEntry (start : Clock) (i : Item) : string :=
  match truthy (notes i) with
  | Some n => textBase start i ++ "
    Notes: " ++ n
  | None => textBase start i
  end.

Definition newline : string := "
".

(** The [lines] of [exportText]. *)
Definition textLines (start : Clock) (l : list Item) : string :=
  String.concat newline (map (textEntry start) (sort_by byStart l)).

(** The document [exportText] writes; [formattedDate] is
    [format(parseISO(date + "T00:00:00"), "PPP")].  (The other variant has
    no title line.) *)
Definition exportText (timelineTitle formattedDate : string) (start : Clock)
    (l : list Item) : string :=
  (if String.eqb timelineTitle "" then "DayFlow Timeline" else timelineTitle)
  ++ newline ++ "DayFlow — " ++ formattedDate ++ newline ++ newline
  ++ textLines start l.

(** The [[year, month, day, hour, minute]] array of an event; the first
    three are the calendar day [dateDay], counted from [date]. *)
Record DateArray := mkDateArray { dateDay : Z; hour : Z; minute : Z }.

Definition dateArray (dt : Z) : DateArray :=
  mkDateArray (getDay dt) (getHours dt) (getMinutes dt).

Record IcsEvent := mkIcsEvent {
  evTitle : string;
  evStart : DateArray;
  evEnd : DateArray;
  description : string;
}.

(** The date-time [exportICS] takes as an item's start:
    [setHours(setMinutes(startDate, sm + i.startMin), sh)]. *)
Definition icsStart (start : Clock) (i : Item) : Z :=
  setHours (setMinutes 0 (mm start + startMin i)) (hh start).

(** The [events] of [exportICS]. *)
Definition icsEvents (start : Clock) (l : list Item) : list IcsEvent :=
  map (fun i =>
         let s := icsStart start i in
         let e := addMinutes s (durationMin i) in
         mkIcsEvent (title i) (dateArray s) (dateArray e)
           (default "Created with DayFlow by Dostal Digital" (truthy (notes i))))
      l.

(** The instant the claim gives an event: day start plus the item's offset. *)
Definition absoluteStart (start : Clock) (i : Item) : Z :=
  hh start * 60 + mm start + startMin i.

(* ===================================================================== *)
(** ** Zoom *)
(* ===================================================================== *)

(** The zoom buttons: [p => Math.min(6, p + 0.5)] and
    [p => Math.max(1, p - 0.5)]. *)
Definition zoomIn (p : Q) : Q := Qmin 6 (p + (1 # 2)).
Definition zoomOut (p : Q) : Q := Qmax 1 (p - (1 # 2)).

(** The height [fitToViewport] aims at:
    [Math.max(420, Math.floor(window.innerHeight * 0.75))]. *)
Definition viewportTarget (innerHeight : Z) : Z :=
  Z.max 420 (Qfloor (inject_Z innerHeight * (3 # 4))).

(** [fitToViewport]: the zoom it sets,
    [Math.max(1, Math.floor(h / Math.max(60, totalMinutes)))]. *)
Definition fitToViewport (innerHeight : Z) (c : Settings) : Z :=
  let h := viewportTarget innerHeight in
  Z.max 1 (Qfloor (inject_Z h / inject_Z (Z.max 60 (totalMinutes c)))).

(** [setPxPerMin]. *)
Definition set_pxPerMin (p : Q) (c : Settings) : Settings :=
  mkSettings (startTime c) (endTime c) (slotSize c) (snap c) p
             (demoMode c) (maxItems c).

Inductive ZoomOp :=
| ZoomIn
| ZoomOut
| Fit (innerHeight : Z).

Definition zoomStep (c : Settings) (op : ZoomOp) : Settings :=
  match op with
  | ZoomIn => set_pxPerMin (zoomIn (pxPerMin c)) c
  | ZoomOut => set_pxPerMin (zoomOut (pxPerMin c)) c
  | Fit ih => set_pxPerMin (inject_Z (fitToViewport ih c)) c
  end.

Definition zoomRun (ops : list ZoomOp) (c : Settings) : Settings :=
  fold_left zoomStep ops c.

(* ===================================================================== *)
(** ** The editor's time field *)
(* ===================================================================== *)

(** [hhmmFromStartAndOffset(startHHmm, offsetMin)]: the text shown in the
    editor's start-time field.  [%] is the remainder that takes the sign
    of the dividend. *)
Definition hhmmFromStartAndOffset (start : Clock) (offsetMin : Z) : string :=
  let total := hh start * 60 + mm start + offsetMin in
  let total := if total <? 0 then 0 else total in
  let h := total / 60 in
  let m := Z.rem total 60 in
  pad2 h ++ ":" ++ pad2 m.

(** [s.split(":")]. *)
Fixpoint split_colon (s : string) : list string :=
  match s with
  | EmptyString => [EmptyString]
  | String a s' =>
      if Ascii.eqb a ":" then EmptyString :: split_colon s'
      else match split_colon s' with
           | piece :: rest => String a piece :: rest
           | [] => [String a EmptyString]
           end
  end.

Definition digitValue (a : ascii) : option Z :=
  let n := Z.of_nat (nat_of_ascii a) in
  if (48 <=? n) && (n <=? 57) then Some (n - 48) else None.

Fixpoint digitsValue (acc : Z) (s : string) : option Z :=
  match s with
  | EmptyString => Some acc
  | String a s' =>
      match digitValue a with
      | Some d => digitsValue (acc * 10 + d) s'
      | None => None
      end
  end.

(** [Number(s)] for a string of decimal digits, which is what the fields
    of a time input's value are; the empty string converts to 0.  Any other
    string is outside the model ([None]). *)
Definition Number_of_digits (s : string) : option Z := digitsValue 0 s.

(** [const [hh, mm] = value.split(":").map(Number)], for a value with at
    least two fields. *)
Definition parseClock (value : string) : option Clock :=
  match split_colon value with
  | h :: m :: _ =>
      match Number_of_digits h, Number_of_digits m with
      | Some hv, Some mv => Some (mkClock hv mv)
      | _, _ => None
      end
  | _ => None
  end.


(* ===================================================================== *)
(** ** What the timeline draws *)
(* ===================================================================== *)

(** The arithmetic of the blocks is that of JavaScript numbers, IEEE 754
    doubles: a product or quotient is the exact value rounded to the
    nearest double, a tie going to the even significand.  [roundDouble]
    is that rounding on the exact value, for values whose magnitude stays
    below [2^1024] (beyond it a double is an infinity, which the model
    does not have). *)

(** [a / b] rounded to the nearest integer, a tie to the even one;
    [0 <= a], [0 < b]. *)
Definition roundHalfEven (a b : Z) : Z :=
  let f := a / b in
  let r := a mod b in
  if 2 * r <? b then f
  else if b <? 2 * r then f + 1
  else if Z.even f then f else f + 1.

(** The exponent [e] with [2^e <= n / d < 2^(e+1)]; [0 < n], [0 < d]. *)
Definition binaryExponent (n d : Z) : Z :=
  let e0 := Z.log2 n - Z.log2 d in
  let reached :=
    if 0 <=? e0 then d * 2 ^ e0 <=? n else d <=? n * 2 ^ (- e0) in
  if reached then e0 else e0 - 1.

(** [n / d] rounded to a double: a significand of 53 bits, the last bit
    worth [2^(e - 52)], and never less than [2^-1074] (the subnormal
    doubles). *)
Definition roundDoublePos (n d : Z) : Q :=
  let q := Z.max (binaryExponent n d - 52) (-1074) in
  if 0 <=? q
  then inject_Z (roundHalfEven n (d * 2 ^ q) * 2 ^ q)
  else roundHalfEven (n * 2 ^ (- q)) d # Z.to_pos (2 ^ (- q)).

Definition roundDouble (x : Q) : Q :=
  match Qnum x with
  | Z0 => 0
  | Zpos _ => roundDoublePos (Qnum x) (QDen x)
  | Zneg _ => - roundDoublePos (- Qnum x) (QDen x)
  end.

(** The rectangle of an item on the canvas: [top] and [height] in pixels,
    [leftPct] and [widthPct] in percent of the canvas width (the style
    narrows the width by a further 8 pixels). *)
Record Block := mkBlock {
  blockTop : Q;
  blockHeight : Q;
  leftPct : Q;
  widthPct : Q;
}.

(** [const top = it.startMin * pxPerMin; const h = it.durationMin * pxPerMin;
     const lane = laneLayout.byId[it.id] ?? 0;
     const laneWidth = 100 / laneLayout.lanesCount;
     leftPct = lane * laneWidth; widthPct = laneWidth]. *)
Definition blockOf (c : Settings) (layout : LaneLayout) (it : Item) : Block :=
  let lane := default 0%nat (byId layout !! id it) in
  let laneWidth := roundDouble (100 / inject_Z (lanesCount layout)) in
  mkBlock (roundDouble (inject_Z (startMin it) * pxPerMin c))
          (roundDouble (inject_Z (durationMin it) * pxPerMin c))
          (roundDouble (inject_Z (Z.of_nat lane) * laneWidth))
          laneWidth.

(** The grid lines and ruler marks:
    [Array.from({ length: Math.floor(totalMinutes / slotSize) + 1 })], the
    mark [idx] at [y = idx * slotSize * pxPerMin]. *)
Definition gridLines (c : Settings) : list Q :=
  map (fun idx => (inject_Z (Z.of_nat idx) * inject_Z (slotSize c) * pxPerMin c)%Q)
      (seq 0 (Z.to_nat
                (Qfloor (inject_Z (totalMinutes c) / inject_Z (slotSize c)) + 1))).

(* ===================================================================== *)
(** ** Invariants used in the proofs *)
(* ===================================================================== *)




(** A truth value as a count of 0 or 1. *)
Definition b2n (b : bool) : nat := if b then 1%nat else 0%nat.

(** How many of the lane ends lie after the instant [t]. *)
Definition busy (t : Z) (ends : list Z) : nat :=
  length (List.filter (fun e => t <? e) ends).

(** The entries name the items processed so far, in order, and every lane
    written is one of the lanes opened. *)
Definition placedWithin (s : list Item) (st : list Z * list Placed) : Prop :=
  map placedId st.2 = map id s
  /\ Forall (fun p => (lane p < length st.1)%nat) st.2.

(** The lane ends after a sweep of [s]: at no instant are more items active
    than lanes are busy; from the last start on, every busy lane holds an
    active item; and at some instant as many items are active as lanes are
    open. *)
Definition endsTrack (s : list Item) (ends : list Z) : Prop :=
  (forall t, (activeAt t s <= busy t ends)%nat)
  /\ (forall t, Forall (fun i => startMin i <= t) s ->
                (busy t ends <= activeAt t s)%nat)
  /\ exists t, activeAt t s = length ends.

(** The sweep of [s] as an assignment [g] of a lane to each item, in order:
    the entries written are those of [g]; the end recorded for a lane is no
    earlier than the end of any item in it; of two items in one lane the
    earlier one ends before the later one starts; every lane opened holds
    an item. *)
Definition lanesDisjoint (s : list Item) (st : list Z * list Placed) : Prop :=
  exists g : list (Item * nat),
    map fst g = s
    /\ st.2 = map (fun q => mkPlaced (id q.1) q.2) g
    /\ Forall (fun q => exists e, st.1 !! q.2 = Some e /\ endMin q.1 <= e) g
    /\ ForallOrdPairs (fun q1 q2 => q1.2 = q2.2 -> endMin q1.1 <= startMin q2.1) g
    /\ (forall j, (j < length st.1)%nat -> exists q, q ∈ g /\ q.2 = j).

(** The zoom is a whole number of half pixels per minute. *)
Definition halfSteps (p : Q) : Prop := exists k : Z, p == k # 2.


(** No character of the string is a colon. *)
Fixpoint noColon (s : string) : bool :=
  match s with
  | EmptyString => true
  | String a s' => negb (Ascii.eqb a ":") && noColon s'
  end.

(** Two items that differ at most in color. *)
Definition sameButColor (a b : Item) : Prop :=
  id a = id b /\ title a = title b /\ startMin a = startMin b
  /\ durationMin a = durationMin b /\ notes a = notes b.

(** The sweep of [s] as an assignment [g] once more: every lane opened
    records the end of one of its items; and an item sits right of a lane
    only if an item swept no later holds that lane at the item's start. *)
Definition firstFit (s : list Item) (st : list Z * list Placed) : Prop :=
  exists g : list (Item * nat),
    map fst g = s
    /\ st.2 = map (fun q => mkPlaced (id q.1) q.2) g
    /\ (forall j, (j < length st.1)%nat ->
          exists q, In q g /\ q.2 = j /\ st.1 !! j = Some (endMin q.1))
    /\ Forall (fun q =>
                 forall j', (j' < q.2)%nat ->
                   exists q', In q' g /\ q'.2 = j'
                              /\ byStartThenLonger q'.1 q.1 <= 0
                              /\ startMin q.1 < endMin q'.1) g.

(* ===================================================================== *)
(** ** Sample inputs *)
(* ===================================================================== *)

(** The component's initial settings: 11:00 to 20:00, 15-minute slots,
    snapping on, two pixels per minute, demo mode with the limit of 100. *)
Definition sampleSettings : Settings :=
  mkSettings (mkClock 11 0) (mkClock 20 0) 15 true 2 true 100.

(** The same settings in the variant whose limit is 6. *)
Definition sampleSettings6 : Settings :=
  mkSettings (mkClock 11 0) (mkClock 20 0) 15 true 2 true 6.

Definition ceremony : PresetDef :=
  mkPreset "ceremony" "Ceremony" 30 (Some "#01363b").

(** A release whose dragged rectangle is 40 pixels high with its top at
    [top], over a grid whose top edge is at 100. *)
Definition releaseAt (top : Q) : DragEvent :=
  mkDragEvent (Some top) (Some 40%Q) 100%Q.

Definition sampleItem (d : string) (s dur : Z) : Item :=
  mkItem d d s dur "#27402c" (Some EmptyString).

(** The single item of the text-export example. *)
Definition ceremonyItem : Item :=
  mkItem "k3x9" "Ceremony" 180 30 "#01363b" None.

Definition threeOverlapping : list Item :=
  [sampleItem "a" 0 30; sampleItem "b" 10 30; sampleItem "c" 20 30].

Definition twoTouching : list Item :=
  [sampleItem "a" 0 30; sampleItem "b" 30 30].

(** Six items one after the other, ids ["0"] to ["5"]. *)
Definition sixItems : list Item :=
  map (fun n => sampleItem (pretty n) (Z.of_nat n * 30) 30) (seq 0 6).

(** Six items on the timeline while an id that none of them carries is
    being dragged, and while the ceremony preset is being dragged. *)
Definition draggingGhost : State :=
  mkState sixItems None None (Some "ghost").

Definition draggingCeremony : State :=
  mkState sixItems None (Some ceremony) None.


(** A schedule of 80 minutes, 11:00 to 12:20. *)
Definition shortDay : Settings :=
  mkSettings (mkClock 11 0) (mkClock 12 20) 15 true 2 true 100.

(* ===================================================================== *)
(** * Properties *)
(* ===================================================================== *)

(** ** Rounding and clamping *)

Lemma Math_round_Z (k : Z) : Math_round (inject_Z k) = k.
Proof.
  unfold Math_round.
  assert (Hlo : k <= Qfloor (inject_Z k + (1 # 2))).
  { rewrite <- (Qfloor_Z k) at 1. apply Qfloor_resp_le.
    rewrite <- (Qplus_0_r (inject_Z k)) at 1.
    apply Qplus_le_r. unfold Qle; simpl; lia. }
  assert (Hhi : Qfloor (inject_Z k + (1 # 2)) < k + 1).
  { apply Z.nle_gt. intros Hge.
    assert (H := Qfloor_le (inject_Z k + (1 # 2))).
    assert (H' : (inject_Z (k + 1) <= inject_Z k + (1 # 2))%Q).
    { eapply Qle_trans; [|exact H]. rewrite <- Zle_Qle. exact Hge. }
    rewrite inject_Z_plus in H'.
    apply Qplus_le_r in H'. unfold Qle in H'; simpl in H'; lia. }
  lia.
Qed.

Lemma Math_round_nearest (x : Q) :
  (inject_Z (Math_round x) - (1 # 2) <= x)%Q
  /\ (x < inject_Z (Math_round x) + (1 # 2))%Q.
Proof.
  unfold Math_round.
  pose proof (Qfloor_le (x + (1 # 2))) as Hlo.
  pose proof (Qlt_floor (x + (1 # 2))) as Hhi.
  rewrite inject_Z_plus in Hhi.
  set (k := inject_Z (Qfloor (x + (1 # 2)))) in *.
  split.
  - apply (Qplus_le_l _ _ (1 # 2)).
    eapply Qle_trans; [|exact Hlo].
    apply Qle_lteq. right. ring.
  - apply (Qplus_lt_l _ _ (1 # 2)).
    eapply Qlt_le_trans; [exact Hhi|].
    change (inject_Z 1) with 1%Q.
    apply Qle_lteq. right. ring.
Qed.

Lemma Math_round_mono (x y : Q) : (x <= y)%Q -> Math_round x <= Math_round y.
Proof.
  intros H. unfold Math_round. apply Qfloor_resp_le.
  apply Qplus_le_l. exact H.
Qed.

Lemma Math_round_comp (x y : Q) : x == y -> Math_round x = Math_round y.
Proof. intros H. unfold Math_round. apply Qfloor_comp. rewrite H. reflexivity. Qed.

Lemma clampQ_bounds (n lo hi : Q) :
  (lo <= hi)%Q -> (lo <= clampQ n lo hi)%Q /\ (clampQ n lo hi <= hi)%Q.
Proof.
  intros H. unfold clampQ. split.
  - apply Q.le_max_l.
  - apply Q.max_lub; [exact H | apply Q.le_min_l].
Qed.

Lemma clamp_bounds (n lo hi : Z) : lo <= hi -> lo <= clamp n lo hi <= hi.
Proof. unfold clamp. lia. Qed.

Lemma totalMinutes_range (c : Settings) : 60 <= totalMinutes c <= 1080.
Proof. unfold totalMinutes. apply clamp_bounds. lia. Qed.

Lemma snapTo_multiple (k slot : Z) : slot <> 0 -> snapTo (k * slot) slot = k * slot.
Proof.
  intros Hs. unfold snapTo. f_equal.
  rewrite <- (Math_round_Z k) at 2. apply Math_round_comp.
  rewrite inject_Z_mult. field.
  intros H. apply Hs. unfold Qeq in H. simpl in H. lia.
Qed.

(** ** Pixel to offset, snapping *)

Lemma pixelToOffset_range (c : Settings) (y : Q) :
  (0 < pxPerMin c)%Q -> 0 <= pixelToOffset c y <= totalMinutes c.
Proof.
  intros Hpx. unfold pixelToOffset.
  pose proof (totalMinutes_range c) as Ht.
  assert (Hg : (0 <= gridHeight c)%Q).
  { unfold gridHeight. apply Qmult_le_0_compat.
    - change 0%Q with (inject_Z 0). rewrite <- Zle_Qle. lia.
    - apply Qlt_le_weak. exact Hpx. }
  destruct (clampQ_bounds y 0%Q (gridHeight c) Hg) as [Hlo Hhi].
  set (r := clampQ y 0%Q (gridHeight c)) in *.
  split.
  - rewrite <- (Math_round_Z 0). apply Math_round_mono.
    apply Qle_shift_div_l; [exact Hpx|].
    change (inject_Z 0) with 0%Q. rewrite Qmult_0_l. exact Hlo.
  - rewrite <- (Math_round_Z (totalMinutes c)). apply Math_round_mono.
    apply Qle_shift_div_r; [exact Hpx|]. exact Hhi.
Qed.

Lemma snapTo_div (x slot : Z) :
  0 < slot -> snapTo x slot = (2 * x + slot) / (2 * slot) * slot.
Proof.
  intros Hs. unfold snapTo, Math_round. f_equal.
  rewrite Zdiv_Qdiv. apply Qfloor_comp.
  rewrite inject_Z_plus, !inject_Z_mult. field.
  intros H. unfold Qeq in H. simpl in H. lia.
Qed.

Lemma snapTo_nearest (x slot : Z) :
  0 < slot ->
  (exists k, snapTo x slot = k * slot)
  /\ - slot < 2 * (snapTo x slot - x) <= slot.
Proof.
  intros Hs. rewrite snapTo_div by exact Hs.
  set (k := (2 * x + slot) / (2 * slot)).
  split; [exists k; reflexivity|].
  pose proof (Z.mul_div_le (2 * x + slot) (2 * slot) ltac:(lia)) as Hlo.
  pose proof (Z.mul_succ_div_gt (2 * x + slot) (2 * slot) ltac:(lia)) as Hhi.
  fold k in Hlo, Hhi. nia.
Qed.

Lemma slotSizes_pos (slot : Z) : In slot slotSizes -> 0 < slot.
Proof. unfold slotSizes. simpl. intros H. lia. Qed.

(** C5.  Whatever the pixel coordinate (negative, beyond the grid,
    fractional), the conversion to minutes, taken before snapping, yields an
    integer offset between 0 and the schedule's total minutes.  A valid
    configuration is one whose zoom factor is positive; the total is always
    between 60 and 1080. *)
Theorem pixelToOffset_within_schedule (c : Settings) (y : Q) :
  (0 < pxPerMin c)%Q ->
  0 <= pixelToOffset c y <= totalMinutes c
  /\ 60 <= totalMinutes c <= 18 * 60.
Proof.
  intros Hpx. split.
  - apply pixelToOffset_range. exact Hpx.
  - apply totalMinutes_range.
Qed.

Lemma pixelToOffset_within_schedule_witness :
  (0 <= pixelToOffset sampleSettings (-(7 # 2)) <= totalMinutes sampleSettings
   /\ 60 <= totalMinutes sampleSettings <= 18 * 60)
  /\ pixelToOffset sampleSettings (-(7 # 2)) = 0
  /\ pixelToOffset sampleSettings (123456789 # 1) = 540
  /\ pixelToOffset sampleSettings (61 # 2) = 15.
Proof.
  split.
  - apply (pixelToOffset_within_schedule sampleSettings). reflexivity.
  - repeat split; reflexivity.
Defined.

(** C6.  Snapping is idempotent for every integer offset and every slot
    size the settings offer; the snapped value is a multiple of the slot
    size at distance at most half a slot from the offset (a tie goes up). *)
Theorem snapTo_idempotent (x slot : Z) :
  In slot slotSizes ->
  snapTo (snapTo x slot) slot = snapTo x slot
  /\ (exists k, snapTo x slot = k * slot)
  /\ - slot < 2 * (snapTo x slot - x) <= slot.
Proof.
  intros Hin. apply slotSizes_pos in Hin.
  destruct (snapTo_nearest x slot Hin) as [[k Hk] Hnear].
  split; [|split; [exists k; exact Hk | exact Hnear]].
  rewrite Hk. apply snapTo_multiple. lia.
Qed.

Lemma snapTo_idempotent_witness :
  (snapTo (snapTo 37 15) 15 = snapTo 37 15
   /\ (exists k, snapTo 37 15 = k * 15)
   /\ - 15 < 2 * (snapTo 37 15 - 37) <= 15)
  /\ snapTo 37 15 = 30 /\ snapTo 38 15 = 45.
Proof.
  split.
  - apply (snapTo_idempotent 37 15). simpl. tauto.
  - split; reflexivity.
Defined.

(** ** The item list under drop, move and edit *)

Lemma map_id_when_absent (f : Item -> Item) (d : string) (l : list Item) :
  (forall i, In i l -> id i <> d) ->
  map (fun i => if String.eqb (id i) d then f i else i) l = l.
Proof.
  induction l as [|x l IH]; intros H; simpl; [reflexivity|].
  rewrite IH by (intros i Hi; apply H; right; exact Hi).
  destruct (String.eqb_spec (id x) d) as [E|_]; [|reflexivity].
  exfalso. apply (H x); [left; reflexivity | exact E].
Qed.

Lemma moveItem_absent (c : Settings) (d : string) (off : Z) (l : list Item) :
  (forall i, In i l -> id i <> d) -> moveItem c d off l = l.
Proof. intros H. unfold moveItem. apply map_id_when_absent. exact H. Qed.

Lemma findItem_absent (d : string) (l : list Item) :
  (forall i, In i l -> id i <> d) -> findItem d l = None.
Proof.
  intros H. unfold findItem.
  destruct (List.find _ l) as [x|] eqn:E; [|reflexivity].
  apply List.find_some in E as [Hin Heq].
  apply String.eqb_eq in Heq. exfalso. exact (H x Hin Heq).
Qed.

(** C7, as the code has it.  For an id that no item of the list carries,
    releasing a drag of that id, saving an edited item of that id (a resize
    or any other field edit) and the resize operation all leave the item
    list as it was.  No error is produced: each handler returns no value
    and shows no message. *)
Theorem absent_id_is_silent_noop
    (c : Settings) (d : string) (ev : DragEvent) (uuid : string)
    (u : Item) (v : Z) (st : State) :
  (forall i, In i (items st) -> id i <> d) ->
  draggingPreset st = None ->
  draggingItemId st = Some d ->
  id u = d ->
  let moved := handleDragEnd c true ev uuid st in
  let saved := upsertItem u st in
  items (state moved) = items st
  /\ returned moved = None /\ alerted moved = []
  /\ items (state saved) = items st
  /\ returned saved = None /\ alerted saved = []
  /\ step c (Resize d v) st = st.
Proof.
  intros Habs Hp Hd Hu. simpl.
  unfold handleDragEnd, upsertItem, step. simpl. rewrite Hp, Hd.
  rewrite (findItem_absent d (items st) Habs). subst d.
  repeat split.
  - destruct (truthy (Some (id u))) as [d'|] eqn:E; simpl; [|reflexivity].
    destruct (id u); simpl in E; [discriminate|]. inversion E; subst d'.
    apply moveItem_absent. exact Habs.
  - apply (map_id_when_absent (fun _ => u)). exact Habs.
Qed.

Lemma absent_id_is_silent_noop_witness :
  items (state (handleDragEnd sampleSettings true (releaseAt 300) "u7" draggingGhost))
    = sixItems
  /\ returned (handleDragEnd sampleSettings true (releaseAt 300) "u7" draggingGhost)
    = None
  /\ alerted (handleDragEnd sampleSettings true (releaseAt 300) "u7" draggingGhost)
    = []
  /\ items (state (upsertItem (sampleItem "ghost" 15 45) draggingGhost)) = sixItems
  /\ returned (upsertItem (sampleItem "ghost" 15 45) draggingGhost) = None
  /\ alerted (upsertItem (sampleItem "ghost" 15 45) draggingGhost) = []
  /\ step sampleSettings (Resize "ghost" 45) draggingGhost = draggingGhost.
Proof.
  apply (absent_id_is_silent_noop sampleSettings "ghost" (releaseAt 300) "u7"
           (sampleItem "ghost" 15 45) 45 draggingGhost).
  - simpl. intros i H. intuition (subst; discriminate).
  - reflexivity.
  - reflexivity.
  - reflexivity.
Defined.

(** C7, as the claim has it, fails: dragging an id that is not in the list
    does not return [NotFound] (the list is unchanged, but nothing is
    returned), and neither does saving an edit of such an id. *)
Lemma absent_id_returns_no_NotFound :
  ~ (returned (handleDragEnd sampleSettings true (releaseAt 300) "u7" draggingGhost)
       = Some NotFound
     /\ items (state (handleDragEnd sampleSettings true (releaseAt 300) "u7"
                        draggingGhost)) = items draggingGhost)
  /\ ~ (returned (upsertItem (sampleItem "ghost" 15 45) draggingGhost)
         = Some NotFound
       /\ items (state (upsertItem (sampleItem "ghost" 15 45) draggingGhost))
         = items draggingGhost).
Proof. split; intros [H _]; discriminate H. Qed.

Lemma insertItem_full (c : Settings) (it : Item) (prev : list Item) :
  demoMode c = true -> (maxItems c <= length prev)%nat ->
  insertItem c it prev = prev.
Proof.
  intros Hd Hn. unfold insertItem. rewrite Hd.
  apply Nat.leb_le in Hn. rewrite Hn. reflexivity.
Qed.

Lemma insertItem_room (c : Settings) (it : Item) (prev : list Item) :
  demoMode c = false \/ (length prev < maxItems c)%nat ->
  insertItem c it prev = prev ++ [it].
Proof.
  intros H. unfold insertItem.
  destruct (demoMode c); simpl; [|reflexivity].
  destruct H as [H|H]; [discriminate|].
  apply Nat.leb_gt in H. rewrite H. reflexivity.
Qed.

(** C8, as the code has it.  In demo mode, once the list holds as many
    items as the limit allows, releasing a dragged preset leaves the item
    list as it was.  The refusal is silent: the handler returns no value
    and shows no message. *)
Theorem drop_at_capacity_is_silent_noop
    (c : Settings) (p : PresetDef) (ev : DragEvent) (uuid : string) (st : State) :
  demoMode c = true ->
  (maxItems c <= length (items st))%nat ->
  draggingPreset st = Some p ->
  draggingItemId st = None ->
  let dropped := handleDragEnd c true ev uuid st in
  items (state dropped) = items st
  /\ returned dropped = None /\ alerted dropped = [].
Proof.
  intros Hd Hn Hp Hi. simpl. unfold handleDragEnd. simpl.
  rewrite Hp, Hi. simpl. repeat split.
  apply insertItem_full; assumption.
Qed.

Lemma drop_at_capacity_is_silent_noop_witness :
  items (state (handleDragEnd sampleSettings6 true (releaseAt 300) "u7"
                  draggingCeremony)) = sixItems
  /\ returned (handleDragEnd sampleSettings6 true (releaseAt 300) "u7"
                 draggingCeremony) = None
  /\ alerted (handleDragEnd sampleSettings6 true (releaseAt 300) "u7"
                draggingCeremony) = [].
Proof.
  apply (drop_at_capacity_is_silent_noop sampleSettings6 ceremony (releaseAt 300)
           "u7" draggingCeremony).
  - reflexivity.
  - simpl. lia.
  - reflexivity.
  - reflexivity.
Defined.

(** C8, as the claim has it, fails: with six items and the limit of six,
    the refused drop is not reported as [CapacityExceeded]. *)
Lemma full_list_reports_no_CapacityExceeded :
  (maxItems sampleSettings6 <= length (items draggingCeremony))%nat
  /\ ~ (items (state (handleDragEnd sampleSettings6 true (releaseAt 300) "u7"
                        draggingCeremony)) = items draggingCeremony
       /\ returned (handleDragEnd sampleSettings6 true (releaseAt 300) "u7"
                      draggingCeremony) = Some CapacityExceeded).
Proof.
  split; [simpl; lia|]. intros [_ H]. discriminate H.
Qed.

(** *** What drop, move and resize keep, and what they do not *)

Lemma Math_round_nonneg (x : Q) : (0 <= x)%Q -> 0 <= Math_round x.
Proof.
  intros H. rewrite <- (Math_round_Z 0). apply Math_round_mono. exact H.
Qed.

Lemma snapTo_nonneg (x slot : Z) : 0 <= x -> 0 < slot -> 0 <= snapTo x slot.
Proof.
  intros Hx Hs. unfold snapTo. apply Z.mul_nonneg_nonneg; [|lia].
  apply Math_round_nonneg. apply Qle_shift_div_l.
  - change 0%Q with (inject_Z 0). rewrite <- Zlt_Qlt. exact Hs.
  - rewrite Qmult_0_l. change 0%Q with (inject_Z 0). rewrite <- Zle_Qle. exact Hx.
Qed.

Lemma dropOffset_nonneg (c : Settings) (ev : DragEvent) :
  (0 < pxPerMin c)%Q -> 0 < slotSize c -> 0 <= dropOffset c ev.
Proof.
  intros Hpx Hs. unfold dropOffset.
  pose proof (pixelToOffset_range c (pointerY ev - rectTop ev)%Q Hpx) as [H _].
  destruct (snap c); [apply snapTo_nonneg; assumption | exact H].
Qed.






(** The move path does keep a moved item inside the schedule, whenever the
    item is no longer than the schedule. *)
Lemma moveItem_inside (c : Settings) (d : string) (off : Z) (l : list Item) :
  Forall (fun i => String.eqb (id i) d = true ->
                   durationMin i <= totalMinutes c ->
                   0 <= startMin i /\ startMin i + durationMin i <= totalMinutes c)
         (moveItem c d off l).
Proof.
  unfold moveItem. apply Forall_map. apply Forall_forall.
  intros i _. simpl. destruct (String.eqb (id i) d) eqn:E.
  - simpl. intros _ Hd. unfold clamp. lia.
  - simpl. intros E'. rewrite E in E'. discriminate.
Qed.

(** C1.  The range conditions are not kept by every operation.  With the
    initial settings (540 minutes), releasing the Ceremony preset 30 pixels
    above the end of the grid stores an item running from minute 525 to 555;
    and an item dropped at the top and then resized to 720 minutes runs
    from minute 0 to 720. *)
Theorem drop_and_resize_leave_schedule :
  totalMinutes sampleSettings = 540
  /\ items (run sampleSettings [Drop ceremony (releaseAt 1140) "u1"] emptyState)
     = [mkItem "u1" "Ceremony" 525 30 "#01363b" (Some EmptyString)]
  /\ forallb (inRange (totalMinutes sampleSettings))
       (items (run sampleSettings [Drop ceremony (releaseAt 1140) "u1"] emptyState))
     = false
  /\ items (run sampleSettings
              [Drop ceremony (releaseAt 80) "u1"; Resize "u1" 720] emptyState)
     = [mkItem "u1" "Ceremony" 0 720 "#01363b" (Some EmptyString)]
  /\ forallb (inRange (totalMinutes sampleSettings))
       (items (run sampleSettings
                 [Drop ceremony (releaseAt 80) "u1"; Resize "u1" 720] emptyState))
     = false.
Proof. repeat split; vm_compute; reflexivity. Qed.

(** ** Palette *)

Lemma applyPalette_cons (c0 : string) (cs : list string) (l : list Item) :
  applyPalette (Some (c0 :: cs)) l
  = imap (fun idx it =>
            set_color ((c0 :: cs) !!! (idx mod length (c0 :: cs))%nat) it) l.
Proof. reflexivity. Qed.

(** C9.  Applying a non-empty palette gives the item at position [i] the
    color [colors[i mod colors.length]] and keeps its id, title, start,
    duration and notes, and the length and order of the list; an empty or
    absent palette leaves the list as it is. *)
Theorem applyPalette_recolors_only (cs : list string) (l : list Item) :
  applyPalette None l = l
  /\ applyPalette (Some []) l = l
  /\ (cs <> [] ->
      length (applyPalette (Some cs) l) = length l
      /\ forall (i : nat) (it : Item),
           l !! i = Some it ->
           exists c : string,
             cs !! (i mod length cs)%nat = Some c
             /\ applyPalette (Some cs) l !! i
                = Some (mkItem (id it) (title it) (startMin it) (durationMin it)
                               c (notes it))).
Proof.
  split; [reflexivity|]. split; [reflexivity|].
  intros Hne. destruct cs as [|c0 cs]; [contradiction|].
  rewrite applyPalette_cons. split; [apply length_imap|].
  intros i it Hi.
  assert (Hlt : (i mod length (c0 :: cs) < length (c0 :: cs))%nat).
  { apply Nat.mod_upper_bound. simpl. lia. }
  destruct (lookup_lt_is_Some_2 _ _ Hlt) as [c Hc].
  exists c. split; [exact Hc|].
  rewrite list_lookup_imap, Hi. simpl. unfold set_color.
  rewrite (list_lookup_total_correct _ _ _ Hc). reflexivity.
Qed.

Lemma applyPalette_recolors_only_witness :
  applyPalette None threeOverlapping = threeOverlapping
  /\ applyPalette (Some []) threeOverlapping = threeOverlapping
  /\ length (applyPalette (Some ["#2D5D7B"; "#9DB6C6"]) threeOverlapping) = 3%nat
  /\ exists c : string,
       ["#2D5D7B"; "#9DB6C6"] !! (2 mod 2)%nat = Some c
       /\ applyPalette (Some ["#2D5D7B"; "#9DB6C6"]) threeOverlapping !! 2%nat
          = Some (mkItem "c" "c" 20 30 c (Some EmptyString)).
Proof.
  destruct (applyPalette_recolors_only ["#2D5D7B"; "#9DB6C6"] threeOverlapping)
    as (H1 & H2 & H3).
  destruct (H3 ltac:(discriminate)) as [Hlen Hat].
  split; [exact H1|]. split; [exact H2|]. split; [exact Hlen|].
  apply (Hat 2%nat (sampleItem "c" 20 30)). reflexivity.
Defined.

(** ** Sorting *)

Section StableSort.
Context {A : Type} (cmp : A -> A -> Z).

Lemma insert_by_perm (x : A) (l : list A) : insert_by cmp x l ≡ₚ x :: l.
Proof.
  induction l as [|y l IH]; simpl; [reflexivity|].
  destruct (cmp x y <=? 0); [reflexivity|].
  rewrite IH. apply Permutation_swap.
Qed.

Lemma sort_by_perm (l : list A) : sort_by cmp l ≡ₚ l.
Proof.
  induction l as [|x l IH]; simpl; [reflexivity|].
  rewrite insert_by_perm. rewrite IH. reflexivity.
Qed.

Lemma sort_by_length (l : list A) : length (sort_by cmp l) = length l.
Proof. apply Permutation_length, sort_by_perm. Qed.

Lemma sort_by_In (x : A) (l : list A) : In x (sort_by cmp l) <-> In x l.
Proof.
  split; apply Permutation_in; [|symmetry]; apply sort_by_perm.
Qed.

(** The comparator orders the elements: it is total and transitive. *)
Hypothesis cmp_total : forall a b, 0 < cmp a b -> cmp b a <= 0.
Hypothesis cmp_trans : forall a b c, cmp a b <= 0 -> cmp b c <= 0 -> cmp a c <= 0.

Lemma insert_by_sorted (x : A) (l : list A) :
  StronglySorted (fun a b => cmp a b <= 0) l ->
  StronglySorted (fun a b => cmp a b <= 0) (insert_by cmp x l).
Proof.
  induction l as [|y l IH]; intros Hs; simpl.
  - constructor; [constructor | constructor].
  - inversion Hs as [|? ? Hs' Hy]; subst.
    destruct (Z.leb_spec (cmp x y) 0) as [Hle|Hgt].
    + constructor; [exact Hs|]. constructor; [exact Hle|].
      eapply Forall_impl; [exact Hy|]. intros z Hz. simpl in Hz.
      eapply cmp_trans; eassumption.
    + constructor; [apply IH; exact Hs'|].
      rewrite insert_by_perm.
      constructor; [apply cmp_total; exact Hgt | exact Hy].
Qed.

Lemma sort_by_sorted (l : list A) :
  StronglySorted (fun a b => cmp a b <= 0) (sort_by cmp l).
Proof.
  induction l as [|x l IH]; simpl; [constructor|].
  apply insert_by_sorted. exact IH.
Qed.

End StableSort.

Section Stability.
Context {A : Type} (cmp : A -> A -> Z) (p : A -> bool).

(** Stability: the elements of a class that the comparator does not tell
    apart keep the order they had in the input. *)
Hypothesis p_class : forall a b, p a = true -> p b = true -> cmp a b <= 0.

Lemma insert_by_filter (x : A) (l : list A) :
  List.filter p (insert_by cmp x l) = List.filter p (x :: l).
Proof.
  induction l as [|y l IH]; [reflexivity|].
  simpl insert_by. destruct (Z.leb_spec (cmp x y) 0) as [Hle|Hgt]; [reflexivity|].
  simpl. simpl in IH. rewrite IH.
  destruct (p x) eqn:Hx, (p y) eqn:Hy; try reflexivity.
  specialize (p_class x y Hx Hy). lia.
Qed.

Lemma sort_by_stable (l : list A) :
  List.filter p (sort_by cmp l) = List.filter p l.
Proof.
  induction l as [|x l IH]; [reflexivity|].
  simpl sort_by. rewrite insert_by_filter. simpl. rewrite IH. reflexivity.
Qed.
End Stability.

Lemma StronglySorted_weaken {A} (R S : A -> A -> Prop) (l : list A) :
  (forall a b, R a b -> S a b) -> StronglySorted R l -> StronglySorted S l.
Proof.
  intros HRS. induction 1 as [|x l Hs IH Hx]; constructor; [exact IH|].
  eapply Forall_impl; [exact Hx|]. intros y. apply HRS.
Qed.

Lemma byStart_sorted (l : list Item) :
  StronglySorted (fun a b => startMin a <= startMin b) (sort_by byStart l).
Proof.
  eapply StronglySorted_weaken; [|apply (sort_by_sorted byStart)].
  - unfold byStart. intros a b. simpl. lia.
  - unfold byStart. intros. lia.
  - unfold byStart. intros. lia.
Qed.

Lemma byStartThenLonger_le (a b : Item) :
  byStartThenLonger a b <= 0 <->
  startMin a < startMin b
  \/ (startMin a = startMin b /\ durationMin b <= durationMin a).
Proof.
  unfold byStartThenLonger.
  destruct (Z.eqb_spec (startMin a - startMin b) 0); lia.
Qed.

Lemma byStartThenLonger_sorted (l : list Item) :
  StronglySorted
    (fun a b => startMin a < startMin b
                \/ (startMin a = startMin b /\ durationMin b <= durationMin a))
    (sort_by byStartThenLonger l).
Proof.
  eapply StronglySorted_weaken; [|apply (sort_by_sorted byStartThenLonger)].
  - intros a b. simpl. apply byStartThenLonger_le.
  - intros a b. unfold byStartThenLonger.
    destruct (Z.eqb_spec (startMin a - startMin b) 0);
      destruct (Z.eqb_spec (startMin b - startMin a) 0); lia.
  - intros a b c. rewrite !byStartThenLonger_le. lia.
Qed.

(** ** Export *)

Lemma timeLabelFromOffset_absolute (start : Clock) (off : Z) :
  timeLabelFromOffset 0 start off
  = format_h_mm_a (hh start * 60 + mm start + off).
Proof.
  unfold timeLabelFromOffset, setMinutes, setHours, getMinutes, getHours.
  f_equal. change (0 / 60) with 0. change (0 mod 24) with 0.
  rewrite Z.sub_0_r, Z.add_0_l, Z.mod_mul by lia. lia.
Qed.

Lemma textEntry_without_notes (start : Clock) (i : Item) :
  notes i = None \/ notes i = Some EmptyString ->
  textEntry start i = textBase start i.
Proof. unfold textEntry. intros [H|H]; rewrite H; reflexivity. Qed.

Lemma textEntry_with_notes (start : Clock) (i : Item) (n : string) :
  notes i = Some n -> n <> EmptyString ->
  textEntry start i
  = (textBase start i ++ newline ++ "    Notes: " ++ n)%string.
Proof.
  unfold textEntry. intros H Hn. rewrite H.
  destruct n; [contradiction|]. reflexivity.
Qed.

(** C4.  The exported text document is its heading (the title, or
    ["DayFlow Timeline"] when the title is empty, then the date line and an
    empty line) followed by the item lines.  The item lines are the entries
    of the items taken in ascending order of start (items with the same
    start in the order of the list), joined by line breaks.  An entry is
    ["<time> — <title> (<duration> min)"], the time being day start plus
    offset on a 12-hour clock, followed by a line ["    Notes: <notes>"]
    exactly when the notes are present and not empty.  For the Ceremony
    item at offset 180 lasting 30 minutes and a day starting at 11:00 the
    lines are ["2:00 PM — Ceremony (30 min)"], and they close the
    document. *)
Theorem exportText_lines (timelineTitle formattedDate : string)
    (start : Clock) (l : list Item) :
  exportText timelineTitle formattedDate start l
  = ((if String.eqb timelineTitle "" then "DayFlow Timeline" else timelineTitle)
     ++ newline ++ "DayFlow — " ++ formattedDate ++ newline ++ newline
     ++ textLines start l)%string
  /\ textLines start l
     = String.concat newline (map (textEntry start) (sort_by byStart l))
  /\ sort_by byStart l ≡ₚ l
  /\ StronglySorted (fun a b => startMin a <= startMin b) (sort_by byStart l)
  /\ (forall s : Z,
        List.filter (fun i => startMin i =? s) (sort_by byStart l)
        = List.filter (fun i => startMin i =? s) l)
  /\ (forall i : Item,
        textBase start i
        = (format_h_mm_a (hh start * 60 + mm start + startMin i)
           ++ " — " ++ title i ++ " (" ++ pretty (durationMin i) ++ " min)")%string)
  /\ (forall i : Item,
        notes i = None \/ notes i = Some EmptyString ->
        textEntry start i = textBase start i)
  /\ (forall (i : Item) (n : string),
        notes i = Some n -> n <> EmptyString ->
        textEntry start i
        = (textBase start i ++ newline ++ "    Notes: " ++ n)%string)
  /\ textLines (mkClock 11 0) [ceremonyItem] = "2:00 PM — Ceremony (30 min)"
  /\ exportText "My Wedding Timeline" formattedDate (mkClock 11 0) [ceremonyItem]
     = ("My Wedding Timeline" ++ newline ++ "DayFlow — " ++ formattedDate
        ++ newline ++ newline ++ "2:00 PM — Ceremony (30 min)")%string.
Proof.
  split; [reflexivity|].
  split; [reflexivity|].
  split; [apply sort_by_perm|].
  split; [apply byStart_sorted|].
  split.
  { intros s. apply sort_by_stable. intros a b Ha Hb. unfold byStart. lia. }
  split.
  { intros i. unfold textBase. rewrite timeLabelFromOffset_absolute. reflexivity. }
  split; [apply textEntry_without_notes|].
  split; [apply textEntry_with_notes|].
  split; [vm_compute; reflexivity|].
  reflexivity.
Qed.

Lemma exportText_lines_witness :
  textEntry (mkClock 11 0) (sampleItem "Toast" 45 10)
  = textBase (mkClock 11 0) (sampleItem "Toast" 45 10)
  /\ textEntry (mkClock 11 0) (mkItem "k1" "Toast" 45 10 "#27402c" (Some "Best man"))
     = "11:45 AM — Toast (10 min)
    Notes: Best man"
  /\ exportText "" "November 2nd, 2026" (mkClock 11 0)
       [mkItem "k1" "Toast" 45 10 "#27402c" (Some "Best man"); ceremonyItem;
        sampleItem "Arrival" 0 15]
     = "DayFlow Timeline
DayFlow — November 2nd, 2026

11:00 AM — Arrival (15 min)
11:45 AM — Toast (10 min)
    Notes: Best man
2:00 PM — Ceremony (30 min)".
Proof.
  destruct (exportText_lines "" "November 2nd, 2026" (mkClock 11 0)
              [mkItem "k1" "Toast" 45 10 "#27402c" (Some "Best man"); ceremonyItem;
               sampleItem "Arrival" 0 15])
    as (Hdoc & _ & _ & _ & _ & _ & Hnone & Hsome & _).
  split; [|split].
  - apply Hnone. right. reflexivity.
  - rewrite (Hsome (mkItem "k1" "Toast" 45 10 "#27402c" (Some "Best man"))
               "Best man"); [reflexivity | reflexivity | discriminate].
  - rewrite Hdoc. vm_compute. reflexivity.
Defined.

(** *** Calendar events *)

Lemma icsStart_value (start : Clock) (i : Item) :
  icsStart start i
  = 1440 * ((mm start + startMin i) / 1440)
    + 60 * hh start + (mm start + startMin i) mod 60.
Proof.
  unfold icsStart, setHours, setMinutes, getHours, getMinutes.
  change (0 mod 60) with 0. rewrite Z.sub_0_l, Z.add_0_l.
  set (v := mm start + startMin i).
  pose proof (Z.div_mod v 60 ltac:(lia)) as H60.
  pose proof (Z.div_mod (v / 60) 24 ltac:(lia)) as H24.
  assert (Hd : v / 1440 = v / 60 / 24).
  { rewrite Z.div_div by lia. reflexivity. }
  lia.
Qed.

(** What the calendar export does get right: one event per item, in the
    order of the list, with the item's title, the notes or else the default
    text as description, and an end that lies the duration after the
    start. *)
Lemma icsEvents_fields (start : Clock) (l : list Item) :
  length (icsEvents start l) = length l
  /\ forall (k : nat) (i : Item),
       l !! k = Some i ->
       exists e : IcsEvent,
         icsEvents start l !! k = Some e
         /\ evTitle e = title i
         /\ evStart e = dateArray (icsStart start i)
         /\ evEnd e = dateArray (icsStart start i + durationMin i)
         /\ description e
            = match notes i with
              | Some (String a n) => String a n
              | _ => "Created with DayFlow by Dostal Digital"%string
              end.
Proof.
  split; [apply length_map|].
  intros k i Hk. unfold icsEvents. rewrite list_lookup_fmap, Hk. simpl.
  eexists. split; [reflexivity|]. repeat split.
  destruct (notes i) as [[|a n]|]; reflexivity.
Qed.

(** C3.  The start of an exported event is not day start plus offset: the
    hours that the minutes carry are overwritten when the hour is set
    afterwards.  With a day starting at 11:00, the Ceremony item at offset
    180 lasting 30 minutes is exported from 11:00 to 11:30; day start plus
    offset is 14:00, which is also what the text export prints. *)
Theorem icsEvents_start_loses_carried_hours :
  icsEvents (mkClock 11 0) [ceremonyItem]
  = [mkIcsEvent "Ceremony" (mkDateArray 0 11 0) (mkDateArray 0 11 30)
       "Created with DayFlow by Dostal Digital"]
  /\ dateArray (absoluteStart (mkClock 11 0) ceremonyItem) = mkDateArray 0 14 0
  /\ timeLabelFromOffset 0 (mkClock 11 0) (startMin ceremonyItem) = "2:00 PM"%string.
Proof. repeat split; vm_compute; reflexivity. Qed.

(** ** Lane layout *)

Lemma findIndex_Some {A} (p : A -> bool) (l : list A) (j : nat) :
  findIndex p l = Some j -> exists x, l !! j = Some x /\ p x = true.
Proof.
  revert j. induction l as [|y l IH]; intros j H; simpl in H; [discriminate|].
  destruct (p y) eqn:Hy.
  - inversion H; subst. exists y. split; [reflexivity | exact Hy].
  - destruct (findIndex p l) as [j'|]; [|discriminate].
    inversion H; subst. simpl. apply IH. reflexivity.
Qed.

Lemma findIndex_None {A} (p : A -> bool) (l : list A) :
  findIndex p l = None -> Forall (fun x => p x = false) l.
Proof.
  induction l as [|y l IH]; intros H; simpl in H; [constructor|].
  destruct (p y) eqn:Hy; [discriminate|].
  destruct (findIndex p l); [discriminate|].
  constructor; [exact Hy | apply IH; reflexivity].
Qed.

Lemma laneLoop_snoc (s : list Item) (x : Item) :
  laneLoop (s ++ [x]) = placeItem (laneLoop s) x.
Proof. unfold laneLoop. rewrite fold_left_app. reflexivity. Qed.

(** *** The object built from the placed entries *)

Lemma fromEntries_snoc (l : list (string * nat)) (kv : string * nat) :
  fromEntries (l ++ [kv]) = <[kv.1 := kv.2]> (fromEntries l).
Proof. unfold fromEntries. rewrite fold_left_app. reflexivity. Qed.

Lemma fromEntries_lookup_Some (l : list (string * nat)) (k : string) (v : nat) :
  fromEntries l !! k = Some v -> (k, v) ∈ l.
Proof.
  induction l as [|[k' v'] l IH] using rev_ind; intros H.
  - unfold fromEntries in H. simpl in H. rewrite lookup_empty in H. discriminate.
  - rewrite fromEntries_snoc in H. simpl in H. rewrite elem_of_app.
    destruct (decide (k' = k)) as [->|Hne].
    + rewrite lookup_insert_eq in H. inversion H; subst.
      right. apply list_elem_of_singleton. reflexivity.
    + rewrite lookup_insert_ne in H by exact Hne. left. apply IH. exact H.
Qed.

Lemma fromEntries_lookup_NoDup (l : list (string * nat)) (k : string) (v : nat) :
  NoDup l.*1 -> (k, v) ∈ l -> fromEntries l !! k = Some v.
Proof.
  induction l as [|[k' v'] l IH] using rev_ind; intros Hnd Hin.
  - inversion Hin.
  - rewrite fromEntries_snoc. simpl.
    rewrite fmap_app in Hnd. apply NoDup_app in Hnd as (Hnd & Hdisj & _).
    apply elem_of_app in Hin as [Hin|Hin].
    + assert (k ≠ k').
      { intros ->. apply (Hdisj k').
        - apply list_elem_of_fmap. exists (k', v). split; [reflexivity | exact Hin].
        - simpl. apply list_elem_of_singleton. reflexivity. }
      rewrite lookup_insert_ne by congruence. apply IH; assumption.
    + apply list_elem_of_singleton in Hin. inversion Hin; subst.
      apply lookup_insert_eq.
Qed.

Lemma fromEntries_lookup_is_Some (l : list (string * nat)) (k : string) :
  k ∈ l.*1 -> is_Some (fromEntries l !! k).
Proof.
  induction l as [|[k' v'] l IH] using rev_ind; intros Hin.
  - inversion Hin.
  - rewrite fromEntries_snoc. simpl.
    destruct (decide (k' = k)) as [->|Hne].
    + rewrite lookup_insert_eq. eexists. reflexivity.
    + rewrite lookup_insert_ne by exact Hne. apply IH.
      rewrite fmap_app in Hin. apply elem_of_app in Hin as [Hin|Hin]; [exact Hin|].
      simpl in Hin. apply list_elem_of_singleton in Hin. congruence.
Qed.

(** *** Every id gets a lane below the count *)

Lemma placeItem_within (s : list Item) (st : list Z * list Placed) (x : Item) :
  placedWithin s st -> placedWithin (s ++ [x]) (placeItem st x).
Proof.
  destruct st as [ends placed]. intros [Hids Hl]. simpl in *.
  unfold placeItem.
  destruct (findIndex _ ends) as [j|] eqn:E; split; simpl.
  - rewrite !map_app, Hids. reflexivity.
  - rewrite length_insert. apply Forall_app. split; [exact Hl|].
    constructor; [|constructor]. simpl.
    apply findIndex_Some in E as (e & He & _).
    apply lookup_lt_Some in He. exact He.
  - rewrite !map_app, Hids. reflexivity.
  - rewrite length_app. simpl. apply Forall_app. split.
    + eapply Forall_impl; [exact Hl|]. intros p Hp. simpl in Hp. lia.
    + constructor; [|constructor]. simpl. lia.
Qed.

Lemma laneLoop_within (s : list Item) : placedWithin s (laneLoop s).
Proof.
  induction s as [|x s IH] using rev_ind.
  - split; [reflexivity | constructor].
  - rewrite laneLoop_snoc. apply placeItem_within. exact IH.
Qed.

Lemma lanesCount_eq (l : list Item) :
  lanesCount (laneLayout l) = Z.max 1 (Z.of_nat (lanesUsed l)).
Proof.
  unfold laneLayout, lanesUsed.
  destruct (laneLoop (sort_by byStartThenLonger l)) as [ends placed].
  reflexivity.
Qed.

Lemma byId_eq (l : list Item) :
  byId (laneLayout l)
  = fromEntries (map (fun p => (placedId p, lane p))
                     (laneLoop (sort_by byStartThenLonger l)).2).
Proof.
  unfold laneLayout.
  destruct (laneLoop (sort_by byStartThenLonger l)) as [ends placed].
  reflexivity.
Qed.

Lemma byId_lane_lt (l : list Item) (d : string) (j : nat) :
  byId (laneLayout l) !! d = Some j ->
  (j < lanesUsed l)%nat /\ exists i, In i l /\ id i = d.
Proof.
  rewrite byId_eq. intros H. apply fromEntries_lookup_Some in H.
  destruct (laneLoop_within (sort_by byStartThenLonger l)) as [Hids Hl].
  apply list_elem_of_fmap in H as (p & Hp & Hin). inversion Hp; subst.
  split.
  - rewrite Forall_forall in Hl. apply Hl. exact Hin.
  - assert (Hd : placedId p ∈ map id (sort_by byStartThenLonger l)).
    { rewrite <- Hids. apply list_elem_of_fmap. exists p. split; [reflexivity|exact Hin]. }
    apply list_elem_of_fmap in Hd as (i & Hi & Hin').
    exists i. split; [|symmetry; exact Hi].
    apply sort_by_In with (cmp := byStartThenLonger).
    apply list_elem_of_In. exact Hin'.
Qed.

Lemma byId_defined (l : list Item) (i : Item) :
  In i l -> is_Some (byId (laneLayout l) !! id i).
Proof.
  intros Hin. rewrite byId_eq. apply fromEntries_lookup_is_Some.
  destruct (laneLoop_within (sort_by byStartThenLonger l)) as [Hids _].
  rewrite <- list_fmap_compose.
  change (id i ∈ map placedId (laneLoop (sort_by byStartThenLonger l)).2).
  rewrite Hids. apply list_elem_of_fmap. exists i. split; [reflexivity|].
  apply list_elem_of_In. apply sort_by_In. exact Hin.
Qed.

(** C10.  For every item list the layout gives every item id of the list a
    lane index, one only (the layout is a map from ids), every index
    given lies in [[0, lanesCount)] and belongs to an id of the list, and
    [lanesCount] is at least 1, with value 1 for the empty list. *)
Theorem laneLayout_covers_ids (l : list Item) :
  1 <= lanesCount (laneLayout l)
  /\ lanesCount (laneLayout []) = 1
  /\ (forall i : Item,
        In i l ->
        exists j : nat,
          byId (laneLayout l) !! id i = Some j
          /\ (forall j' : nat, byId (laneLayout l) !! id i = Some j' -> j' = j)
          /\ 0 <= Z.of_nat j < lanesCount (laneLayout l))
  /\ (forall (d : string) (j : nat),
        byId (laneLayout l) !! d = Some j ->
        0 <= Z.of_nat j < lanesCount (laneLayout l)
        /\ exists i : Item, In i l /\ id i = d).
Proof.
  split; [rewrite lanesCount_eq; lia|].
  split; [reflexivity|].
  split.
  - intros i Hin. destruct (byId_defined l i Hin) as [j Hj].
    exists j. split; [exact Hj|]. split; [intros j' Hj'; congruence|].
    apply byId_lane_lt in Hj as [Hlt _]. rewrite lanesCount_eq. lia.
  - intros d j Hj. apply byId_lane_lt in Hj as [Hlt Hex].
    split; [rewrite lanesCount_eq; lia | exact Hex].
Qed.

Lemma laneLayout_covers_ids_witness :
  exists j : nat,
    byId (laneLayout threeOverlapping) !! "b" = Some j
    /\ 0 <= Z.of_nat j < lanesCount (laneLayout threeOverlapping).
Proof.
  destruct (laneLayout_covers_ids threeOverlapping) as (_ & _ & H & _).
  destruct (H (sampleItem "b" 10 30)) as (j & Hj & _ & Hr).
  - simpl. right. left. reflexivity.
  - exists j. split; [exact Hj | exact Hr].
Defined.

(** *** Lanes opened against items active at one instant *)

Lemma busy_snoc (t : Z) (ends : list Z) (e : Z) :
  busy t (ends ++ [e]) = (busy t ends + b2n (t <? e)%Z)%nat.
Proof.
  unfold busy. rewrite List.filter_app, length_app. simpl.
  destruct (t <? e); reflexivity.
Qed.

Lemma busy_insert (t : Z) (ends : list Z) (j : nat) (e e' : Z) :
  ends !! j = Some e ->
  (busy t (<[j := e']> ends) + b2n (t <? e)%Z
   = busy t ends + b2n (t <? e')%Z)%nat.
Proof.
  revert j. induction ends as [|y ends IH]; intros j H; [discriminate|].
  destruct j as [|j]; simpl in H.
  - inversion H; subst. unfold busy. simpl.
    destruct (t <? e), (t <? e'); simpl; lia.
  - specialize (IH j H). unfold busy in *. simpl.
    destruct (t <? y); simpl; lia.
Qed.

Lemma busy_le_length (t : Z) (ends : list Z) : (busy t ends <= length ends)%nat.
Proof. unfold busy. apply List.filter_length_le. Qed.

Lemma busy_all (t : Z) (ends : list Z) :
  Forall (fun e => (e <=? t) = false) ends -> busy t ends = length ends.
Proof.
  unfold busy. induction 1 as [|e ends He _ IH]; [reflexivity|]. simpl.
  apply Z.leb_gt in He. apply Z.ltb_lt in He. rewrite He. simpl. lia.
Qed.

Lemma activeAt_snoc (t : Z) (s : list Item) (x : Item) :
  activeAt t (s ++ [x]) = (activeAt t s + b2n (active t x))%nat.
Proof.
  unfold activeAt. rewrite List.filter_app, length_app. simpl.
  destruct (active t x); reflexivity.
Qed.

Lemma activeAt_perm (t : Z) (s s' : list Item) :
  s ≡ₚ s' -> activeAt t s = activeAt t s'.
Proof.
  intros H. unfold activeAt. induction H; simpl.
  - reflexivity.
  - destruct (active t x); simpl; lia.
  - destruct (active t x), (active t y); reflexivity.
  - lia.
Qed.

Lemma placeItem_endsTrack (s : list Item) (ends : list Z) (placed : list Placed)
    (x : Item) :
  endsTrack s ends ->
  Forall (fun i => startMin i <= startMin x) s ->
  0 < durationMin x ->
  endsTrack (s ++ [x]) (placeItem (ends, placed) x).1.
Proof.
  intros (Hle & Hge & [t0 Ht0]) Hsorted Hpos. unfold placeItem.
  fold (endMin x).
  destruct (findIndex _ ends) as [j|] eqn:E; simpl.
  - apply findIndex_Some in E as (e & He & Hfree). apply Z.leb_le in Hfree.
    assert (Hle' : forall t,
               (activeAt t (s ++ [x])
                <= busy t (<[j := endMin x]> ends))%nat).
    { intros t. rewrite activeAt_snoc.
      pose proof (busy_insert t ends j e (endMin x) He) as Hb.
      specialize (Hle t). unfold active.
      destruct (Z.ltb_spec t e), (Z.leb_spec (startMin x) t),
        (Z.ltb_spec t (endMin x)); unfold endMin in *; simpl in *; lia. }
    split; [exact Hle'|]. split.
    + intros t Hall. apply Forall_app in Hall as [Hall Hx].
      inversion Hx as [|? ? Hxt _]; subst.
      rewrite activeAt_snoc.
      pose proof (busy_insert t ends j e (endMin x) He) as Hb.
      specialize (Hge t Hall). unfold active.
      destruct (Z.ltb_spec t e), (Z.leb_spec (startMin x) t),
        (Z.ltb_spec t (endMin x)); unfold endMin in *; simpl in *; lia.
    + exists t0. rewrite length_insert.
      pose proof (Hle' t0) as H1.
      pose proof (busy_le_length t0 (<[j := endMin x]> ends)) as H2.
      rewrite length_insert in H2. rewrite activeAt_snoc in *. lia.
  - apply findIndex_None in E.
    split; [|split].
    + intros t. rewrite activeAt_snoc, busy_snoc. specialize (Hle t).
      unfold active.
      destruct (Z.leb_spec (startMin x) t),
        (Z.ltb_spec t (endMin x)); unfold endMin in *; simpl in *; lia.
    + intros t Hall. apply Forall_app in Hall as [Hall Hx].
      inversion Hx as [|? ? Hxt _]; subst.
      rewrite activeAt_snoc, busy_snoc. specialize (Hge t Hall).
      unfold active.
      destruct (Z.leb_spec (startMin x) t),
        (Z.ltb_spec t (endMin x)); unfold endMin in *; simpl in *; lia.
    + exists (startMin x). rewrite activeAt_snoc, length_app. simpl.
      pose proof (busy_all (startMin x) ends E) as Hb.
      specialize (Hle (startMin x)). specialize (Hge (startMin x) Hsorted).
      unfold active.
      destruct (Z.leb_spec (startMin x) (startMin x)),
        (Z.ltb_spec (startMin x) (endMin x)); unfold endMin in *; simpl; lia.
Qed.

Lemma StronglySorted_snoc_inv {A} (R : A -> A -> Prop) (s : list A) (x : A) :
  StronglySorted R (s ++ [x]) ->
  StronglySorted R s /\ Forall (fun y => R y x) s.
Proof.
  induction s as [|y s IH]; simpl; intros H; [split; constructor|].
  inversion H as [|? ? Hs Hy]; subst.
  destruct (IH Hs) as [IH1 IH2].
  apply Forall_app in Hy as [Hy1 Hy2]. inversion Hy2; subst.
  split; constructor; assumption.
Qed.

Lemma laneLoop_endsTrack (s : list Item) :
  StronglySorted (fun a b => startMin a <= startMin b) s ->
  Forall (fun i => 0 < durationMin i) s ->
  endsTrack s (laneLoop s).1.
Proof.
  induction s as [|x s IH] using rev_ind; intros Hs Hpos.
  - split; [|split]; [intros t; reflexivity | intros t _; reflexivity |].
    exists 0. reflexivity.
  - rewrite laneLoop_snoc. destruct (laneLoop s) as [ends placed] eqn:E.
    apply Forall_app in Hpos as [Hpos Hx]. inversion Hx; subst.
    apply StronglySorted_snoc_inv in Hs as [Hs Hlast].
    apply placeItem_endsTrack; [apply IH; assumption | exact Hlast | assumption].
Qed.

(** *** No two items of one lane overlap *)

Lemma ForallOrdPairs_snoc {A} (R : A -> A -> Prop) (g : list A) (y : A) :
  ForallOrdPairs R g -> Forall (fun z => R z y) g -> ForallOrdPairs R (g ++ [y]).
Proof.
  induction 1 as [|a g Ha Hg IH]; intros Hy; simpl.
  - constructor; [constructor | constructor].
  - inversion Hy; subst. constructor; [|apply IH; assumption].
    apply Forall_app. split; [exact Ha|]. constructor; [assumption | constructor].
Qed.

Lemma placeItem_lanesDisjoint (s : list Item) (st : list Z * list Placed)
    (x : Item) :
  lanesDisjoint s st -> 0 < durationMin x ->
  lanesDisjoint (s ++ [x]) (placeItem st x).
Proof.
  destruct st as [ends placed].
  intros (g & Hg & Hpl & Hends & Hpairs & Hused) Hpos. simpl in *.
  unfold placeItem. fold (endMin x).
  destruct (findIndex _ ends) as [j|] eqn:E.
  - apply findIndex_Some in E as (e & He & Hfree). apply Z.leb_le in Hfree.
    pose proof (lookup_lt_Some _ _ _ He) as Hj.
    exists (g ++ [(x, j)]). simpl. repeat split.
    + rewrite map_app, Hg. reflexivity.
    + rewrite map_app, Hpl. reflexivity.
    + apply Forall_app. split.
      * eapply Forall_impl; [exact Hends|]. intros q (e0 & He0 & Hq). simpl in *.
        destruct (decide (q.2 = j)) as [Heq|Hne].
        -- exists (endMin x). rewrite Heq.
           rewrite list_lookup_insert_eq by exact Hj.
           split; [reflexivity|]. unfold endMin in *.
           assert (e0 = e) by (rewrite Heq in He0; congruence). lia.
        -- exists e0. rewrite list_lookup_insert_ne by congruence.
           split; assumption.
      * constructor; [|constructor]. simpl. exists (endMin x).
        rewrite list_lookup_insert_eq by exact Hj. split; [reflexivity | lia].
    + apply ForallOrdPairs_snoc; [exact Hpairs|].
      eapply Forall_impl; [exact Hends|]. intros q (e0 & He0 & Hq) Heq.
      simpl in *. assert (e0 = e) by (rewrite Heq in He0; congruence). lia.
    + intros j'. rewrite length_insert. intros Hj'.
      destruct (Hused j' Hj') as (q & Hq & Hqj).
      exists q. split; [apply elem_of_app; left; exact Hq | exact Hqj].
  - exists (g ++ [(x, length ends)]). simpl. repeat split.
    + rewrite map_app, Hg. reflexivity.
    + rewrite map_app, Hpl. reflexivity.
    + apply Forall_app. split.
      * eapply Forall_impl; [exact Hends|]. intros q (e0 & He0 & Hq). simpl in *.
        exists e0. split; [|exact Hq]. apply lookup_app_l_Some. exact He0.
      * constructor; [|constructor]. simpl. exists (endMin x).
        split; [|lia]. apply list_lookup_middle. reflexivity.
    + apply ForallOrdPairs_snoc; [exact Hpairs|].
      eapply Forall_impl; [exact Hends|]. intros q (e0 & He0 & Hq) Heq.
      simpl in *. apply lookup_lt_Some in He0. lia.
    + intros j'. rewrite length_app. simpl. intros Hj'.
      destruct (decide (j' = length ends)) as [->|Hne].
      * exists (x, length ends). split; [|reflexivity].
        apply elem_of_app. right. apply list_elem_of_singleton. reflexivity.
      * destruct (Hused j' ltac:(lia)) as (q & Hq & Hqj).
        exists q. split; [apply elem_of_app; left; exact Hq | exact Hqj].
Qed.

Lemma laneLoop_lanesDisjoint (s : list Item) :
  Forall (fun i => 0 < durationMin i) s -> lanesDisjoint s (laneLoop s).
Proof.
  induction s as [|x s IH] using rev_ind; intros Hpos.
  - exists []. simpl. repeat split; try constructor.
    intros j Hj. simpl in Hj. lia.
  - rewrite laneLoop_snoc. apply Forall_app in Hpos as [Hpos Hx].
    inversion Hx; subst. apply placeItem_lanesDisjoint; [apply IH|]; assumption.
Qed.

Lemma overlaps_false (a b : Item) :
  endMin a <= startMin b \/ endMin b <= startMin a -> overlaps a b = false.
Proof. unfold overlaps. intros H. apply Z.ltb_ge. lia. Qed.

(** Two ranges intersect exactly when some instant lies in both. *)
Lemma overlaps_active (a b : Item) :
  overlaps a b = true <-> exists t, active t a = true /\ active t b = true.
Proof.
  unfold overlaps, active. rewrite Z.ltb_lt. split.
  - intros H. exists (Z.max (startMin a) (startMin b)).
    rewrite !andb_true_iff, !Z.leb_le, !Z.ltb_lt. lia.
  - intros (t & Ha & Hb). revert Ha Hb.
    rewrite !andb_true_iff, !Z.leb_le, !Z.ltb_lt. lia.
Qed.

Lemma sorted_by_start (l : list Item) :
  StronglySorted (fun a b => startMin a <= startMin b)
                 (sort_by byStartThenLonger l).
Proof.
  eapply StronglySorted_weaken; [|apply byStartThenLonger_sorted].
  intros a b. simpl. lia.
Qed.

Lemma byId_assignment (l : list Item) :
  (forall i, In i l -> 0 < durationMin i) ->
  NoDup (map id l) ->
  exists g : list (Item * nat),
    (forall i, In i l <-> exists j, In (i, j) g)
    /\ (forall q, In q g -> byId (laneLayout l) !! id q.1 = Some q.2)
    /\ ForallOrdPairs
         (fun q1 q2 => q1.2 = q2.2 -> endMin q1.1 <= startMin q2.1) g
    /\ (forall j, (j < lanesUsed l)%nat -> exists q, In q g /\ q.2 = j).
Proof.
  intros Hpos Hnd.
  set (s := sort_by byStartThenLonger l).
  assert (Hperm : s ≡ₚ l) by apply sort_by_perm.
  assert (Hpos' : Forall (fun i => 0 < durationMin i) s).
  { apply Forall_forall. intros i Hi. apply Hpos.
    apply (sort_by_In byStartThenLonger). apply list_elem_of_In. exact Hi. }
  destruct (laneLoop_lanesDisjoint s Hpos') as (g & Hg & Hpl & _ & Hpairs & Hused).
  exists g. split; [|split; [|split]].
  - intros i. rewrite <- (sort_by_In byStartThenLonger). fold s. rewrite <- Hg.
    rewrite in_map_iff. split.
    + intros ([i' j] & Hi & Hin). simpl in Hi. subst i'. exists j. exact Hin.
    + intros (j & Hin). exists (i, j). split; [reflexivity | exact Hin].
  - intros q Hq. rewrite byId_eq. fold s. rewrite Hpl.
    apply fromEntries_lookup_NoDup.
    + assert (Hk : (map (fun p => (placedId p, lane p))
                       (map (fun q => mkPlaced (id q.1) q.2) g)).*1
                   = map id s).
      { rewrite <- Hg. clear. induction g as [|q g IH]; [reflexivity|].
        simpl. f_equal. exact IH. }
      rewrite Hk. change (NoDup (id <$> s)). rewrite Hperm. exact Hnd.
    + apply list_elem_of_In. rewrite map_map. simpl.
      apply in_map_iff. exists q. split; [reflexivity | exact Hq].
  - exact Hpairs.
  - intros j Hj. unfold lanesUsed in Hj. fold s in Hj.
    destruct (Hused j Hj) as (q & Hq & Hqj).
    exists q. split; [apply list_elem_of_In; exact Hq | exact Hqj].
Qed.

(** C2.  For items with positive durations and distinct ids: two items the
    layout puts in the same lane never have intersecting ranges (ranges
    that only touch do not intersect); the lanes opened are exactly the lane
    indices given to items, and their number is the greatest number of
    items active at one instant (never more items than lanes at any
    instant, and as many at some instant); [lanesCount] is that number,
    except that it is 1 for no items.  Two items [[0,30)] and [[30,60)] share
    lane 0 of 1; three items [[0,30)], [[10,40)], [[20,50)] take lanes 0, 1, 2
    of 3. *)
Theorem laneLayout_minimal (l : list Item) :
  (forall i, In i l -> 0 < durationMin i) ->
  NoDup (map id l) ->
  (forall (a b : Item) (j : nat),
     In a l -> In b l -> a <> b ->
     byId (laneLayout l) !! id a = Some j ->
     byId (laneLayout l) !! id b = Some j ->
     overlaps a b = false)
  /\ (forall t : Z, (activeAt t l <= lanesUsed l)%nat)
  /\ (exists t : Z, activeAt t l = lanesUsed l)
  /\ (forall j : nat,
        (j < lanesUsed l)%nat
        <-> exists i : Item, In i l /\ byId (laneLayout l) !! id i = Some j)
  /\ lanesCount (laneLayout l) = Z.max 1 (Z.of_nat (lanesUsed l))
  /\ (lanesCount (laneLayout twoTouching) = 1
      /\ byId (laneLayout twoTouching) !! "a" = Some 0%nat
      /\ byId (laneLayout twoTouching) !! "b" = Some 0%nat)
  /\ (lanesCount (laneLayout threeOverlapping) = 3
      /\ byId (laneLayout threeOverlapping) !! "a" = Some 0%nat
      /\ byId (laneLayout threeOverlapping) !! "b" = Some 1%nat
      /\ byId (laneLayout threeOverlapping) !! "c" = Some 2%nat).
Proof.
  intros Hpos Hnd.
  destruct (byId_assignment l Hpos Hnd) as (g & Hmem & Hby & Hpairs & Hused).
  assert (Htrack : endsTrack (sort_by byStartThenLonger l) 
                     (laneLoop (sort_by byStartThenLonger l)).1).
  { apply laneLoop_endsTrack; [apply sorted_by_start|].
    apply Forall_forall. intros i Hi. apply Hpos.
    apply (sort_by_In byStartThenLonger). apply list_elem_of_In. exact Hi. }
  destruct Htrack as (Hle & _ & [t0 Ht0]).
  split; [|split; [|split; [|split; [|split; [|split]]]]].
  - intros a b j Ha Hb Hab Hja Hjb.
    apply Hmem in Ha as [ja Ha]. apply Hmem in Hb as [jb Hb].
    pose proof (Hby _ Ha) as Ha'. pose proof (Hby _ Hb) as Hb'. simpl in *.
    assert (ja = j) by congruence. assert (jb = j) by congruence. subst ja jb.
    apply overlaps_false.
    destruct (ForallOrdPairs_In Hpairs _ _ Ha Hb) as [Heq|[H|H]].
    + inversion Heq. contradiction.
    + left. apply H. reflexivity.
    + right. apply H. reflexivity.
  - intros t. rewrite <- (activeAt_perm t _ _ (sort_by_perm byStartThenLonger l)).
    etransitivity; [apply Hle|]. apply busy_le_length.
  - exists t0. rewrite <- (activeAt_perm t0 _ _ (sort_by_perm byStartThenLonger l)).
    exact Ht0.
  - intros j. split.
    + intros Hj. destruct (Hused j Hj) as ([i j'] & Hq & Hqj). simpl in Hqj. subst j'.
      exists i. split; [apply Hmem; exists j; exact Hq | apply (Hby _ Hq)].
    + intros (i & _ & Hi). apply byId_lane_lt in Hi as [Hlt _]. exact Hlt.
  - apply lanesCount_eq.
  - repeat split; vm_compute; reflexivity.
  - repeat split; vm_compute; reflexivity.
Qed.

Lemma laneLayout_minimal_witness :
  (forall t : Z, (activeAt t threeOverlapping <= lanesUsed threeOverlapping)%nat)
  /\ (exists t : Z, activeAt t threeOverlapping = lanesUsed threeOverlapping)
  /\ lanesUsed threeOverlapping = 3%nat
  /\ overlaps (sampleItem "a" 0 30) (sampleItem "b" 30 30) = false.
Proof.
  destruct (laneLayout_minimal threeOverlapping) as (_ & H1 & H2 & _).
  - simpl. intros i H. intuition (subst; simpl; lia).
  - apply (bool_decide_unpack (NoDup (map id threeOverlapping))).
    vm_compute. reflexivity.
  - split; [exact H1|]. split; [exact H2|]. split; reflexivity.
Defined.

(** The hypothesis on durations is needed: an item of duration 0 occupies no
    instant, yet it takes a lane of its own when it starts inside another
    item.  (No operation stores such an item: see [run_keeps].) *)
Example empty_range_takes_a_lane :
  lanesUsed [sampleItem "a" 0 20; sampleItem "b" 10 0] = 2%nat
  /\ forall t : Z,
       (activeAt t [sampleItem "a" 0 20; sampleItem "b" 10 0] <= 1)%nat.
Proof.
  split; [reflexivity|]. intros t. unfold activeAt, active, endMin. simpl.
  destruct (Z.leb_spec 10 t), (Z.ltb_spec t (10 + 0)); simpl;
    destruct (_ && _); simpl; lia.
Qed.

(* ===================================================================== *)
(** * Further properties of the component *)
(* ===================================================================== *)

(** ** Zoom *)

Lemma Qfloor_div_Z (a b : Z) : Qfloor (inject_Z a / inject_Z b) = a / b.
Proof. symmetry. apply Zdiv_Qdiv. Qed.

Lemma viewportTarget_eq (ih : Z) : viewportTarget ih = Z.max 420 (3 * ih / 4).
Proof.
  unfold viewportTarget. f_equal. rewrite Zdiv_Qdiv. apply Qfloor_comp.
  rewrite inject_Z_mult. unfold Qeq. simpl. lia.
Qed.

Lemma fitToViewport_eq (ih : Z) (c : Settings) :
  fitToViewport ih c = Z.max 1 (viewportTarget ih / totalMinutes c).
Proof.
  unfold fitToViewport. rewrite Qfloor_div_Z.
  pose proof (totalMinutes_range c). rewrite (Z.max_r 60) by lia. reflexivity.
Qed.

Lemma zoomStep_keeps (c : Settings) (op : ZoomOp) :
  (1 <= pxPerMin c)%Q -> halfSteps (pxPerMin c) ->
  (1 <= pxPerMin (zoomStep c op))%Q /\ halfSteps (pxPerMin (zoomStep c op))
  /\ totalMinutes (zoomStep c op) = totalMinutes c.
Proof.
  intros Hp [k Hk]. destruct op as [| |ih]; simpl; unfold zoomIn, zoomOut.
  - split; [|split; [|reflexivity]].
    + apply Q.min_glb; [unfold Qle; simpl; lia|].
      eapply Qle_trans; [exact Hp|].
      rewrite <- (Qplus_0_r (pxPerMin c)) at 1. apply Qplus_le_r.
      unfold Qle; simpl; lia.
    + destruct (Q.min_spec 6 (pxPerMin c + (1 # 2))) as [[_ E]|[_ E]].
      * exists 12. rewrite E. reflexivity.
      * exists (k + 1). rewrite E, Hk. unfold Qeq. simpl. lia.
  - split; [apply Q.le_max_l|]. split; [|reflexivity].
    destruct (Q.max_spec 1 (pxPerMin c - (1 # 2))) as [[_ E]|[_ E]].
    + exists (k - 1). rewrite E, Hk. unfold Qeq. simpl. lia.
    + exists 2. rewrite E. reflexivity.
  - split; [|split; [|reflexivity]].
    + rewrite fitToViewport_eq. change 1%Q with (inject_Z 1).
      rewrite <- Zle_Qle. lia.
    + exists (2 * fitToViewport ih c). unfold Qeq. simpl. lia.
Qed.

(** X1.  Zooming in, zooming out and fitting, in any order, keep the zoom
    at one pixel per minute or more, and a whole number of half pixels; the
    length of the schedule is not touched.  So the zoom stays positive, as
    the conversion from pixels to minutes needs. *)
Theorem zoomRun_keeps_scale (ops : list ZoomOp) (c : Settings) :
  (1 <= pxPerMin c)%Q -> halfSteps (pxPerMin c) ->
  (1 <= pxPerMin (zoomRun ops c))%Q
  /\ (0 < pxPerMin (zoomRun ops c))%Q
  /\ halfSteps (pxPerMin (zoomRun ops c))
  /\ totalMinutes (zoomRun ops c) = totalMinutes c.
Proof.
  revert c. induction ops as [|op ops IH]; intros c Hp Hh; simpl.
  - split; [exact Hp|]. split; [|split; [exact Hh | reflexivity]].
    eapply Qlt_le_trans; [|exact Hp]. reflexivity.
  - destruct (zoomStep_keeps c op Hp Hh) as (Hp' & Hh' & Ht).
    destruct (IH (zoomStep c op) Hp' Hh') as (H1 & H2 & H3 & H4).
    split; [exact H1|]. split; [exact H2|]. split; [exact H3|].
    rewrite H4. exact Ht.
Qed.

Lemma zoomRun_keeps_scale_witness :
  (1 <= pxPerMin (zoomRun [Fit 1000; ZoomIn; ZoomOut; ZoomOut] sampleSettings))%Q
  /\ (0 < pxPerMin (zoomRun [Fit 1000; ZoomIn; ZoomOut; ZoomOut] sampleSettings))%Q
  /\ halfSteps (pxPerMin (zoomRun [Fit 1000; ZoomIn; ZoomOut; ZoomOut] sampleSettings))
  /\ totalMinutes (zoomRun [Fit 1000; ZoomIn; ZoomOut; ZoomOut] sampleSettings)
     = totalMinutes sampleSettings.
Proof.
  apply (zoomRun_keeps_scale [Fit 1000; ZoomIn; ZoomOut; ZoomOut] sampleSettings).
  - unfold Qle. simpl. lia.
  - exists 4. reflexivity.
Defined.

(** X2.  Between the limits the two zoom buttons undo each other: zooming
    in and then out returns to a zoom between 1 and 5.5, zooming out and
    then in returns to a zoom between 1.5 and 6.  Zooming in never gives
    more than 6, so above 6 (where a fit can leave the zoom) it lowers the
    zoom to 6. *)
Theorem zoom_buttons_undo (p : Q) :
  ((1 <= p)%Q -> (p <= 11 # 2)%Q -> zoomOut (zoomIn p) == p)
  /\ ((3 # 2 <= p)%Q -> (p <= 6)%Q -> zoomIn (zoomOut p) == p)
  /\ (zoomIn p <= 6)%Q
  /\ ((6 <= p)%Q -> zoomIn p == 6).
Proof.
  unfold zoomIn, zoomOut. repeat split.
  - intros H1 H2.
    destruct (Q.min_spec 6 (p + (1 # 2))) as [[Ha Ea]|[Ha Ea]]; rewrite Ea;
      destruct (Q.max_spec 1 (p + (1 # 2) - (1 # 2))) as [[Hb Eb]|[Hb Eb]];
      destruct (Q.max_spec 1 (6 - (1 # 2))) as [[Hc Ec]|[Hc Ec]];
      try rewrite Eb; try rewrite Ec; lra.
  - intros H1 H2.
    destruct (Q.max_spec 1 (p - (1 # 2))) as [[Ha Ea]|[Ha Ea]]; rewrite Ea;
      destruct (Q.min_spec 6 (p - (1 # 2) + (1 # 2))) as [[Hb Eb]|[Hb Eb]];
      destruct (Q.min_spec 6 (1 + (1 # 2))) as [[Hc Ec]|[Hc Ec]];
      try rewrite Eb; try rewrite Ec; lra.
  - apply Q.le_min_l.
  - intros H. apply Q.min_l. lra.
Qed.

Lemma zoom_buttons_undo_witness :
  zoomOut (zoomIn 2) == 2 /\ zoomIn (zoomOut 2) == 2 /\ zoomIn 7 == 6.
Proof.
  destruct (zoom_buttons_undo 2) as (H1 & H2 & _).
  destruct (zoom_buttons_undo 7) as (_ & _ & _ & H4).
  split; [|split].
  - apply H1; lra.
  - apply H2; lra.
  - apply H4. lra.
Defined.

(** X3.  Fitting picks a whole zoom of at least 1 for a target height of
    at least 420 pixels (three quarters of the window height when that is
    more).  When the schedule has no more minutes than the target has
    pixels, it is the largest whole zoom whose grid is no higher than the
    target; otherwise it is 1. *)
Theorem fitToViewport_largest (ih : Z) (c : Settings) :
  420 <= viewportTarget ih
  /\ 1 <= fitToViewport ih c
  /\ (totalMinutes c <= viewportTarget ih ->
      fitToViewport ih c * totalMinutes c <= viewportTarget ih
      /\ viewportTarget ih < (fitToViewport ih c + 1) * totalMinutes c)
  /\ (viewportTarget ih < totalMinutes c -> fitToViewport ih c = 1)
  /\ gridHeight (zoomStep c (Fit ih))
     == inject_Z (totalMinutes c * fitToViewport ih c).
Proof.
  pose proof (totalMinutes_range c) as Ht.
  rewrite fitToViewport_eq. rewrite viewportTarget_eq.
  set (h := Z.max 420 (3 * ih / 4)).
  set (T := totalMinutes c) in *.
  split; [unfold h; lia|]. split; [lia|]. split; [|split].
  - intros Hle.
    pose proof (Z.mul_div_le h T ltac:(lia)) as H1.
    pose proof (Z.mul_succ_div_gt h T ltac:(lia)) as H2.
    assert (1 <= h / T) by (apply Z.div_le_lower_bound; lia).
    rewrite Z.max_r by lia. nia.
  - intros Hlt. rewrite Z.div_small by (unfold h in *; lia). reflexivity.
  - unfold gridHeight. simpl. fold T.
    rewrite fitToViewport_eq, viewportTarget_eq. fold h.
    rewrite inject_Z_mult. reflexivity.
Qed.

Lemma fitToViewport_largest_witness :
  fitToViewport 1000 shortDay = 9
  /\ fitToViewport 1000 shortDay * totalMinutes shortDay <= viewportTarget 1000
  /\ viewportTarget 1000 < (fitToViewport 1000 shortDay + 1) * totalMinutes shortDay.
Proof.
  destruct (fitToViewport_largest 1000 shortDay) as (_ & _ & H & _).
  split; [reflexivity|]. apply H. vm_compute. discriminate.
Defined.

(** ** The editor's start field, dropping with the snap *)

Lemma clamp_guard (n h : Z) : clamp n 0 (Z.max 0 h) = clamp n 0 h.
Proof. unfold clamp. lia. Qed.



Lemma snapTo_mono (x y slot : Z) :
  0 < slot -> x <= y -> snapTo x slot <= snapTo y slot.
Proof.
  intros Hs Hxy. rewrite !snapTo_div by exact Hs.
  apply Z.mul_le_mono_nonneg_r; [lia|].
  apply Z.div_le_mono; lia.
Qed.

(** X5.  The offset a release is given is never negative.  It is at most
    the length of the schedule when snapping is off or the slot size
    divides that length (with a slot size that does not, rounding to the
    slot can pass the end).  With snapping on it is a multiple of the slot
    size. *)
Theorem dropOffset_range (c : Settings) (ev : DragEvent) :
  (0 < pxPerMin c)%Q -> 0 < slotSize c ->
  0 <= dropOffset c ev
  /\ (snap c = false \/ (slotSize c | totalMinutes c) ->
      dropOffset c ev <= totalMinutes c)
  /\ (snap c = true -> (slotSize c | dropOffset c ev)).
Proof.
  intros Hpx Hs. split; [apply dropOffset_nonneg; assumption|].
  unfold dropOffset.
  pose proof (pixelToOffset_range c (pointerY ev - rectTop ev)%Q Hpx) as [H0 H1].
  split.
  - intros [Hoff|[k Hk]].
    + rewrite Hoff. exact H1.
    + destruct (snap c); [|exact H1].
      etransitivity; [apply snapTo_mono; [exact Hs | exact H1]|].
      rewrite Hk. rewrite snapTo_multiple by lia. lia.
  - intros Hon. rewrite Hon.
    destruct (snapTo_nearest (pixelToOffset c (pointerY ev - rectTop ev)%Q)
                (slotSize c) Hs) as [[k Hk] _].
    exists k. exact Hk.
Qed.

Lemma dropOffset_range_witness :
  0 <= dropOffset sampleSettings (releaseAt 1140)
  /\ dropOffset sampleSettings (releaseAt 1140) <= totalMinutes sampleSettings
  /\ (slotSize sampleSettings | dropOffset sampleSettings (releaseAt 1140)).
Proof.
  destruct (dropOffset_range sampleSettings (releaseAt 1140)) as (H1 & H2 & H3).
  - reflexivity.
  - reflexivity.
  - split; [exact H1|]. split.
    + apply H2. right. exists 36. reflexivity.
    + apply H3. reflexivity.
Defined.

(** ** Moving, deleting and saving items *)

Lemma moveItem_lookup (c : Settings) (d : string) (off : Z) (l : list Item)
    (k : nat) :
  moveItem c d off l !! k
  = (fun i => if String.eqb (id i) d
              then set_startMin
                     (clamp off 0 (Z.max 0 (totalMinutes c - durationMin i))) i
              else i) <$> l !! k.
Proof. unfold moveItem. apply list_lookup_fmap. Qed.

(** X6.  A move changes nothing but the start of the items that carry the
    dragged id: the list keeps its length and order, every other item is
    kept as it is, and a moved item keeps its id, title, duration, color
    and notes.  The new start is the offset brought into the range from 0
    to the schedule length less the item's duration, so a moved item that
    is no longer than the schedule lies inside the schedule. *)
Theorem moveItem_frame (c : Settings) (d : string) (off : Z) (l : list Item) :
  length (moveItem c d off l) = length l
  /\ forall (k : nat) (i : Item),
       l !! k = Some i ->
       exists s : Z,
         moveItem c d off l !! k = Some (set_startMin s i)
         /\ (id i <> d -> s = startMin i)
         /\ (id i = d ->
             0 <= s
             /\ (durationMin i <= totalMinutes c ->
                 s + durationMin i <= totalMinutes c)
             /\ (0 <= off <= totalMinutes c - durationMin i -> s = off)).
Proof.
  split; [unfold moveItem; apply length_map|].
  intros k i Hk. rewrite moveItem_lookup, Hk. simpl.
  destruct (String.eqb_spec (id i) d) as [E|E].
  - eexists. split; [reflexivity|]. split; [contradiction|].
    intros _. unfold clamp. lia.
  - exists (startMin i). split; [destruct i; reflexivity|].
    split; [reflexivity | contradiction].
Qed.

Lemma moveItem_frame_witness :
  exists s : Z,
    moveItem sampleSettings "b" 1000 threeOverlapping !! 1%nat
    = Some (set_startMin s (sampleItem "b" 10 30))
    /\ 0 <= s /\ s + 30 <= 540.
Proof.
  destruct (moveItem_frame sampleSettings "b" 1000 threeOverlapping) as [_ H].
  destruct (H 1%nat (sampleItem "b" 10 30)) as (s & Hs & _ & Hin);
    [reflexivity|].
  exists s. split; [exact Hs|].
  destruct Hin as (H0 & H1 & _); [reflexivity|].
  split; [exact H0 | apply H1; vm_compute; discriminate].
Defined.

(** X7.  Of two moves of the same id the later one decides: the result is
    that of the later move alone.  Moves of different ids can be made in
    either order. *)
Theorem moveItem_compose (c : Settings) (d d' : string) (o1 o2 : Z)
    (l : list Item) :
  moveItem c d o2 (moveItem c d o1 l) = moveItem c d o2 l
  /\ (d <> d' ->
      moveItem c d o1 (moveItem c d' o2 l) = moveItem c d' o2 (moveItem c d o1 l)).
Proof.
  unfold moveItem. split.
  - rewrite map_map. apply map_ext. intros i.
    destruct (String.eqb (id i) d) eqn:E; simpl; rewrite E; reflexivity.
  - intros Hne. rewrite !map_map. apply map_ext. intros i.
    destruct (String.eqb (id i) d) eqn:E; destruct (String.eqb (id i) d') eqn:E';
      simpl; rewrite ?E, ?E'; try reflexivity.
    apply String.eqb_eq in E, E'. congruence.
Qed.

Lemma moveItem_compose_witness :
  moveItem sampleSettings "a" 45 (moveItem sampleSettings "b" 90 threeOverlapping)
  = moveItem sampleSettings "b" 90 (moveItem sampleSettings "a" 45 threeOverlapping).
Proof.
  destruct (moveItem_compose sampleSettings "a" "b" 45 90 threeOverlapping)
    as [_ H].
  apply H. discriminate.
Defined.

Lemma filter_all (P : Item -> Prop) `{forall x, Decision (P x)} (l : list Item) :
  Forall P l -> filter P l = l.
Proof.
  induction 1 as [|x l Hx _ IH]; [reflexivity|].
  rewrite filter_cons_True by exact Hx. rewrite IH. reflexivity.
Qed.

(** X8.  Deleting an id removes every item that carries it and nothing
    else; the items kept stay in their order; deleting an id that no item
    carries, or deleting a second time, changes nothing; the editor is
    closed.  A delete undoes a drop: releasing a preset under a fresh id
    and then deleting that id gives back the item list, whether the drop
    was accepted or refused. *)
Theorem deleteItem_removes (c : Settings) (ev : DragEvent) (p : PresetDef)
    (d : string) (st : State) :
  (forall i : Item,
     i ∈ items (state (deleteItem d st)) <-> i ∈ items st /\ id i <> d)
  /\ items (state (deleteItem d st)) `sublist_of` items st
  /\ ((forall i, i ∈ items st -> id i <> d) ->
      items (state (deleteItem d st)) = items st)
  /\ items (state (deleteItem d (state (deleteItem d st))))
     = items (state (deleteItem d st))
  /\ selected (state (deleteItem d st)) = None
  /\ ((forall i, i ∈ items st -> id i <> d) ->
      draggingItemId st = None ->
      items (state (deleteItem d
                      (state (handleDragEnd c true ev d
                                (handleDragStart (Some p) None st)))))
      = items st).
Proof.
  simpl. split; [|split; [|split; [|split; [|split]]]].
  - intros i. rewrite list_elem_of_filter. tauto.
  - apply sublist_filter.
  - intros H. apply filter_all. apply Forall_forall. exact H.
  - apply filter_all. apply Forall_forall. intros i Hi.
    apply list_elem_of_filter in Hi. tauto.
  - reflexivity.
  - intros H Hd. unfold handleDragEnd. simpl. rewrite Hd. simpl.
    unfold insertItem. destruct (_ && _).
    + apply filter_all. apply Forall_forall. exact H.
    + rewrite filter_app. rewrite filter_all by (apply Forall_forall; exact H).
      rewrite filter_cons_False by (simpl; tauto).
      rewrite filter_nil. apply app_nil_r.
Qed.

Lemma deleteItem_removes_witness :
  items (state (deleteItem "u9" draggingCeremony)) = sixItems
  /\ items (state (deleteItem "u9"
                     (state (handleDragEnd sampleSettings true (releaseAt 300) "u9"
                               (handleDragStart (Some ceremony) None
                                  (mkState sixItems None None None))))))
     = sixItems.
Proof.
  assert (Hfresh : forall i, i ∈ sixItems -> id i <> "u9"%string).
  { intros i Hi. apply list_elem_of_In in Hi. simpl in Hi.
    intuition (subst; discriminate). }
  split.
  - destruct (deleteItem_removes sampleSettings (releaseAt 300) ceremony "u9"
                draggingCeremony) as (_ & _ & H & _).
    apply H. exact Hfresh.
  - destruct (deleteItem_removes sampleSettings (releaseAt 300) ceremony "u9"
                (mkState sixItems None None None)) as (_ & _ & _ & _ & _ & H).
    apply H; [exact Hfresh | reflexivity].
Defined.

(** *** Ids *)

Lemma moveItem_ids (c : Settings) (d : string) (off : Z) (l : list Item) :
  map id (moveItem c d off l) = map id l.
Proof.
  unfold moveItem. rewrite map_map. apply map_ext. intros i.
  destruct (String.eqb (id i) d); reflexivity.
Qed.

Lemma upsert_ids (u : Item) (l : list Item) :
  map id (map (fun i => if String.eqb (id i) (id u) then u else i) l) = map id l.
Proof.
  rewrite map_map. apply map_ext. intros i.
  destruct (String.eqb_spec (id i) (id u)) as [E|E]; [symmetry; exact E | reflexivity].
Qed.

Lemma imap_set_color_ids (f : nat -> string) (l : list Item) :
  map id (imap (fun idx it => set_color (f idx) it) l) = map id l.
Proof.
  revert f. induction l as [|x l IH]; intros f; [reflexivity|].
  simpl. f_equal. apply (IH (f ∘ S)).
Qed.

Lemma applyPalette_ids (colors : option (list string)) (l : list Item) :
  map id (applyPalette colors l) = map id l.
Proof.
  destruct colors as [[|c0 cs]|]; try reflexivity.
  rewrite applyPalette_cons.
  apply (imap_set_color_ids
           (fun idx => (c0 :: cs) !!! (idx mod length (c0 :: cs))%nat)).
Qed.

(** X9.  Ids stay distinct.  If no two items share an id, this is still so
    after a release (of a preset under an id not yet in the list, of an
    item, or of both), after saving an edited item, after a delete and
    after a palette.  Moves, saves and palettes keep the very sequence of
    ids. *)
Theorem ids_stay_distinct (c : Settings) (ev : DragEvent) (uuid d : string)
    (u : Item) (colors : option (list string)) (st : State) :
  NoDup (map id (items st)) ->
  (uuid ∉ map id (items st) ->
   NoDup (map id (items (state (handleDragEnd c true ev uuid st)))))
  /\ NoDup (map id (items (state (upsertItem u st))))
  /\ NoDup (map id (items (state (deleteItem d st))))
  /\ NoDup (map id (applyPalette colors (items st)))
  /\ map id (moveItem c d (dropOffset c ev) (items st)) = map id (items st)
  /\ map id (items (state (upsertItem u st))) = map id (items st)
  /\ map id (applyPalette colors (items st)) = map id (items st).
Proof.
  intros Hnd. split; [|split; [|split; [|split; [|split; [|split]]]]].
  - intros Hfresh. unfold handleDragEnd. simpl.
    assert (H1 : NoDup (map id match draggingPreset st with
                               | Some p => insertItem c (newItem p (dropOffset c ev) uuid)
                                             (items st)
                               | None => items st
                               end)).
    { destruct (draggingPreset st) as [p|]; [|exact Hnd].
      unfold insertItem. destruct (_ && _); [exact Hnd|].
      rewrite map_app. simpl. apply NoDup_app. split; [exact Hnd|].
      split; [|apply NoDup_singleton].
      intros x Hx Hx'. apply list_elem_of_singleton in Hx'. subst x.
      exact (Hfresh Hx). }
    destruct (truthy (draggingItemId st)); [rewrite moveItem_ids|]; exact H1.
  - simpl. rewrite upsert_ids. exact Hnd.
  - simpl. eapply sublist_NoDup; [exact Hnd|].
    apply (fmap_sublist id). apply sublist_filter.
  - rewrite applyPalette_ids. exact Hnd.
  - apply moveItem_ids.
  - simpl. apply upsert_ids.
  - apply applyPalette_ids.
Qed.

Lemma ids_stay_distinct_witness :
  NoDup (map id (items (state (handleDragEnd sampleSettings true (releaseAt 300)
                                 "u9" draggingCeremony)))).
Proof.
  destruct (ids_stay_distinct sampleSettings (releaseAt 300) "u9" "0"
              (sampleItem "0" 0 30) None draggingCeremony) as [H _].
  - apply (bool_decide_unpack (NoDup (map id (items draggingCeremony)))).
    vm_compute. reflexivity.
  - apply H.
    apply (bool_decide_unpack ("u9" ∉ map id (items draggingCeremony))).
    vm_compute. reflexivity.
Defined.

Lemma NoDup_ids_inj (l : list Item) (a b : Item) :
  NoDup (map id l) -> In a l -> In b l -> id a = id b -> a = b.
Proof.
  induction l as [|x l IH]; intros Hnd Ha Hb E; [contradiction|].
  simpl in Hnd. apply NoDup_cons in Hnd as [Hx Hnd].
  assert (Hin : forall y, In y l -> id y ∈ map id l).
  { intros y Hy. apply list_elem_of_In. apply in_map. exact Hy. }
  destruct Ha as [->|Ha], Hb as [->|Hb].
  - reflexivity.
  - exfalso. apply Hx. rewrite E. apply Hin. exact Hb.
  - exfalso. apply Hx. rewrite <- E. apply Hin. exact Ha.
  - apply IH; assumption.
Qed.

Lemma findItem_upsert (u : Item) (l : list Item) :
  (exists i, In i l /\ id i = id u) ->
  findItem (id u)
    (map (fun i => if String.eqb (id i) (id u) then u else i) l) = Some u.
Proof.
  unfold findItem. induction l as [|x l IH]; intros (i & Hi & E).
  - contradiction.
  - simpl. destruct (String.eqb_spec (id x) (id u)) as [Ex|Ex].
    + rewrite String.eqb_refl. reflexivity.
    + destruct (String.eqb_spec (id x) (id u)); [contradiction|].
      apply IH. destruct Hi as [->|Hi]; [contradiction|].
      exists i. split; assumption.
Qed.

(** X10.  Saving an item puts it in the place of every item with its id
    and leaves the others, the length and the order as they are; when the
    id is in the list, looking the id up afterwards finds the saved item.
    With distinct ids, saving an item as it stands in the list changes
    nothing.  Saving twice is saving once, and the editor is closed. *)
Theorem upsertItem_saves (u : Item) (st : State) :
  length (items (state (upsertItem u st))) = length (items st)
  /\ ((exists i, In i (items st) /\ id i = id u) ->
      findItem (id u) (items (state (upsertItem u st))) = Some u)
  /\ (forall (k : nat) (i : Item),
        items st !! k = Some i -> id i <> id u ->
        items (state (upsertItem u st)) !! k = Some i)
  /\ (NoDup (map id (items st)) -> In u (items st) ->
      items (state (upsertItem u st)) = items st)
  /\ items (state (upsertItem u (state (upsertItem u st))))
     = items (state (upsertItem u st))
  /\ selected (state (upsertItem u st)) = None.
Proof.
  simpl. split; [apply length_map|]. split; [apply findItem_upsert|].
  split; [|split; [|split; [|reflexivity]]].
  - intros k i Hk Hne.
    rewrite list_lookup_fmap, Hk.
    simpl. destruct (String.eqb_spec (id i) (id u)); [contradiction | reflexivity].
  - intros Hnd Hu. rewrite <- (map_id (items st)) at 2.
    apply map_ext_in. intros i Hi.
    destruct (String.eqb_spec (id i) (id u)) as [E|E]; [|reflexivity].
    symmetry. apply (NoDup_ids_inj (items st)); assumption.
  - rewrite map_map. apply map_ext. intros i.
    destruct (String.eqb_spec (id i) (id u)) as [E|E].
    + rewrite String.eqb_refl. reflexivity.
    + destruct (String.eqb_spec (id i) (id u)); [contradiction | reflexivity].
Qed.

Lemma upsertItem_saves_witness :
  findItem "b" (items (state (upsertItem (sampleItem "b" 60 45)
                                (mkState threeOverlapping None None None))))
  = Some (sampleItem "b" 60 45)
  /\ items (state (upsertItem (sampleItem "b" 10 30)
                     (mkState threeOverlapping None None None)))
     = threeOverlapping.
Proof.
  split.
  - destruct (upsertItem_saves (sampleItem "b" 60 45)
                (mkState threeOverlapping None None None)) as (_ & H & _).
    apply H. exists (sampleItem "b" 10 30). split; [|reflexivity].
    simpl. right. left. reflexivity.
  - destruct (upsertItem_saves (sampleItem "b" 10 30)
                (mkState threeOverlapping None None None)) as (_ & _ & _ & H & _).
    apply H.
    + apply (bool_decide_unpack (NoDup (map id threeOverlapping))).
      vm_compute. reflexivity.
    + simpl. right. left. reflexivity.
Defined.

(** *** Sequences of operations *)




(** ** The editor's time field *)

(** *** Reading back what the time field shows *)

Lemma digitValue_char (n : N) :
  (n < 10)%N -> digitValue (pretty_N_char n) = Some (Z.of_N n).
Proof.
  intros H. rewrite <- (N2Nat.id n).
  assert (Hm : (N.to_nat n < 10)%nat) by lia.
  revert Hm. generalize (N.to_nat n). intros m Hm.
  do 10 (destruct m as [|m]; [reflexivity|]). lia.
Qed.

Lemma noColon_char (n : N) : Ascii.eqb (pretty_N_char n) ":" = false.
Proof. unfold pretty_N_char. repeat case_match; reflexivity. Qed.

Lemma pretty_N_go_digits (x : N) (s : string) :
  digitsValue 0 (pretty_N_go x s) = digitsValue (Z.of_N x) s
  /\ noColon (pretty_N_go x s) = noColon s.
Proof.
  revert s. induction (N.lt_wf_0 x) as [x _ IH]. intros s.
  destruct (decide (x = 0%N)) as [->|Hx].
  - rewrite pretty_N_go_0. split; reflexivity.
  - rewrite pretty_N_go_step by lia.
    assert (Hlt : (x `div` 10 < x)%N) by (apply N.div_lt; lia).
    destruct (IH _ Hlt (String (pretty_N_char (x `mod` 10)) s)) as [H1 H2].
    rewrite H1, H2. simpl.
    rewrite digitValue_char by (apply N.mod_lt; lia).
    rewrite noColon_char. simpl. split; [|reflexivity]. f_equal.
    pose proof (N.div_mod x 10 ltac:(lia)). lia.
Qed.

Lemma pretty_Z_digits (z : Z) :
  0 <= z ->
  Number_of_digits (pretty z) = Some z /\ noColon (pretty z) = true.
Proof.
  intros Hz. destruct z as [|p|p]; [split; reflexivity| |lia].
  unfold Number_of_digits.
  change (pretty (Z.pos p)) with (pretty_N_go (N.pos p) "").
  destruct (pretty_N_go_digits (N.pos p) "") as [H1 H2].
  rewrite H1, H2. split; reflexivity.
Qed.

Lemma pad2_digits (z : Z) :
  0 <= z -> Number_of_digits (pad2 z) = Some z /\ noColon (pad2 z) = true.
Proof.
  intros Hz. destruct (pretty_Z_digits z Hz) as [H1 H2].
  unfold pad2. destruct (z <? 10); [|split; assumption].
  split; [exact H1 | exact H2].
Qed.

Lemma split_colon_field (s rest : string) :
  noColon s = true ->
  split_colon (s ++ ":" ++ rest) = s :: split_colon rest.
Proof.
  induction s as [|a s IH]; intros H; [reflexivity|].
  simpl in H. apply andb_true_iff in H as [Ha Hs].
  simpl. destruct (Ascii.eqb a ":"); [discriminate|].
  change (split_colon (s ++ String ":" rest))
    with (split_colon (s ++ ":" ++ rest)).
  rewrite (IH Hs). reflexivity.
Qed.

Lemma split_colon_last (s : string) : noColon s = true -> split_colon s = [s].
Proof.
  induction s as [|a s IH]; intros H; [reflexivity|].
  simpl in H. apply andb_true_iff in H as [Ha Hs].
  simpl. destruct (Ascii.eqb a ":"); [discriminate|].
  rewrite (IH Hs). reflexivity.
Qed.

(** X13.  The text of the editor's time field reads back as the time it
    shows: when day start plus offset is not negative, splitting the text
    at the colon and converting the two fields gives the whole hours and
    the remaining minutes of day start plus offset (the hours are not
    wrapped at 24).  When day start plus offset is negative the text is
    ["00:00"]. *)
Theorem hhmmFromStartAndOffset_reads_back (start : Clock) (off : Z) :
  (0 <= hh start * 60 + mm start + off ->
   parseClock (hhmmFromStartAndOffset start off)
   = Some (mkClock ((hh start * 60 + mm start + off) / 60)
                   ((hh start * 60 + mm start + off) mod 60)))
  /\ (hh start * 60 + mm start + off < 0 ->
      hhmmFromStartAndOffset start off = "00:00"%string).
Proof.
  unfold hhmmFromStartAndOffset. set (total := hh start * 60 + mm start + off).
  split.
  - intros Ht. destruct (Z.ltb_spec total 0) as [|_]; [lia|].
    rewrite Z.rem_mod_nonneg by lia.
    destruct (pad2_digits (total / 60) ltac:(apply Z.div_pos; lia)) as [Hh Hhc].
    destruct (pad2_digits (total mod 60)
                ltac:(apply Z.mod_pos_bound; lia)) as [Hm Hmc].
    unfold parseClock. rewrite (split_colon_field _ _ Hhc).
    rewrite (split_colon_last _ Hmc). rewrite Hh, Hm. reflexivity.
  - intros Ht. destruct (Z.ltb_spec total 0) as [_|]; [reflexivity | lia].
Qed.

Lemma hhmmFromStartAndOffset_reads_back_witness :
  parseClock (hhmmFromStartAndOffset (mkClock 11 0) 185) = Some (mkClock 14 5)
  /\ hhmmFromStartAndOffset (mkClock 11 0) (-700) = "00:00"%string
  /\ hhmmFromStartAndOffset (mkClock 11 0) 185 = "14:05"%string.
Proof.
  destruct (hhmmFromStartAndOffset_reads_back (mkClock 11 0) 185) as [H1 _].
  destruct (hhmmFromStartAndOffset_reads_back (mkClock 11 0) (-700)) as [_ H2].
  split; [apply H1; vm_compute; discriminate|].
  split; [apply H2; reflexivity | reflexivity].
Defined.

(** X14.  Typing back the start time the editor shows does not move the
    item: for a day start that is not negative and an item whose start
    lies between 0 and the last start that keeps it inside the schedule,
    reading the shown text and storing it as the new start gives the item
    unchanged. *)
Theorem editStart_shown_time_is_fixed (c : Settings) (sel : Item) :
  0 <= hh (startTime c) * 60 + mm (startTime c) ->
  0 <= startMin sel <= Z.max 0 (totalMinutes c - durationMin sel) ->
  exists t : Clock,
    parseClock (hhmmFromStartAndOffset (startTime c) (startMin sel)) = Some t
    /\ editStart c t sel = sel.
Proof.
  intros Hday Hin.
  set (total := hh (startTime c) * 60 + mm (startTime c) + startMin sel).
  exists (mkClock (total / 60) (total mod 60)). split.
  - unfold hhmmFromStartAndOffset. fold total.
    destruct (Z.ltb_spec total 0) as [|_]; [unfold total in *; lia|].
    rewrite Z.rem_mod_nonneg by (unfold total; lia).
    destruct (pad2_digits (total / 60)
                ltac:(apply Z.div_pos; unfold total; lia)) as [Hh Hhc].
    destruct (pad2_digits (total mod 60)
                ltac:(apply Z.mod_pos_bound; lia)) as [Hm Hmc].
    unfold parseClock. rewrite (split_colon_field _ _ Hhc).
    rewrite (split_colon_last _ Hmc). rewrite Hh, Hm. reflexivity.
  - unfold editStart. simpl.
    pose proof (Z.div_mod total 60 ltac:(lia)) as Hdm.
    replace (total / 60 * 60 + total mod 60
             - (hh (startTime c) * 60 + mm (startTime c)))
      with (startMin sel) by (unfold total in *; lia).
    unfold clamp. rewrite Z.min_r by lia. rewrite Z.max_r by lia.
    destruct sel; reflexivity.
Qed.

Lemma editStart_shown_time_is_fixed_witness :
  exists t : Clock,
    parseClock (hhmmFromStartAndOffset (startTime sampleSettings)
                  (startMin ceremonyItem)) = Some t
    /\ editStart sampleSettings t ceremonyItem = ceremonyItem.
Proof.
  apply (editStart_shown_time_is_fixed sampleSettings ceremonyItem).
  - vm_compute. discriminate.
  - vm_compute. split; discriminate.
Defined.

(** ** Calendar events *)

Lemma icsStart_shift (start : Clock) (i : Item) :
  icsStart start i
  = hh start * 60 + mm start + startMin i
    - 60 * (((mm start + startMin i) / 60) mod 24).
Proof.
  rewrite icsStart_value. set (v := mm start + startMin i).
  pose proof (Z.div_mod v 60 ltac:(lia)) as H60.
  pose proof (Z.div_mod (v / 60) 24 ltac:(lia)) as H24.
  assert (Hd : v / 1440 = v / 60 / 24) by (rewrite Z.div_div by lia; reflexivity).
  lia.
Qed.

(** X15.  The calendar export makes one event per item, in the order of
    the list, with the item's title and, as description, the notes when
    they are present and not empty and the standard text otherwise.  An
    event ends the item's duration after it starts.  Its start is day start
    plus offset less the whole hours (counted within a day) that the
    start's minutes and the offset add up to: it is day start plus offset
    exactly when those stay below 60, and its minute of the hour is always
    that of day start plus offset. *)
Theorem icsEvents_shape (start : Clock) (l : list Item) :
  length (icsEvents start l) = length l
  /\ map evTitle (icsEvents start l) = map title l
  /\ forall (k : nat) (i : Item),
       l !! k = Some i ->
       exists (e : IcsEvent) (s : Z),
         icsEvents start l !! k = Some e
         /\ evStart e = dateArray s
         /\ evEnd e = dateArray (s + durationMin i)
         /\ s = hh start * 60 + mm start + startMin i
                - 60 * (((mm start + startMin i) / 60) mod 24)
         /\ (0 <= mm start + startMin i < 60 ->
             s = hh start * 60 + mm start + startMin i)
         /\ minute (evStart e) = (hh start * 60 + mm start + startMin i) mod 60
         /\ (forall n : string,
               notes i = Some n -> n <> EmptyString -> description e = n)
         /\ (notes i = None \/ notes i = Some EmptyString ->
             description e = "Created with DayFlow by Dostal Digital"%string).
Proof.
  destruct (icsEvents_fields start l) as [Hlen Hf].
  split; [exact Hlen|]. split.
  { unfold icsEvents. rewrite map_map. reflexivity. }
  intros k i Hk. destruct (Hf k i Hk) as (e & He & Ht & Hs & Hend & Hd).
  exists e, (icsStart start i).
  split; [exact He|]. split; [exact Hs|]. split; [exact Hend|].
  split; [apply icsStart_shift|]. split.
  - intros Hsmall. rewrite icsStart_shift.
    rewrite Z.div_small by lia. rewrite Z.mod_0_l by lia. lia.
  - split.
    + rewrite Hs. unfold dateArray. simpl. unfold getMinutes.
      rewrite icsStart_shift.
      replace (hh start * 60 + mm start + startMin i
               - 60 * (((mm start + startMin i) / 60) mod 24))
        with (hh start * 60 + mm start + startMin i
              + (- (((mm start + startMin i) / 60) mod 24)) * 60) by lia.
      apply Z.mod_add. lia.
    + split.
      * intros n Hn Hne. rewrite Hd, Hn. destruct n; [contradiction | reflexivity].
      * intros [Hn|Hn]; rewrite Hd, Hn; reflexivity.
Qed.

Lemma icsEvents_shape_witness :
  exists (e : IcsEvent) (s : Z),
    icsEvents (mkClock 11 20) [sampleItem "Toast" 25 10] !! 0%nat = Some e
    /\ evStart e = dateArray s
    /\ s = 11 * 60 + 20 + 25
    /\ description e = "Created with DayFlow by Dostal Digital"%string.
Proof.
  destruct (icsEvents_shape (mkClock 11 20) [sampleItem "Toast" 25 10])
    as (_ & _ & H).
  destruct (H 0%nat (sampleItem "Toast" 25 10)) as
    (e & s & He & Hs & _ & _ & Hsmall & _ & _ & Hd); [reflexivity|].
  exists e, s. split; [exact He|]. split; [exact Hs|].
  split; [apply Hsmall; simpl; lia|].
  apply Hd. right. reflexivity.
Defined.

(** ** The order of the item list *)

Lemma StronglySorted_perm_eq {A} (R : A -> A -> Prop) (s1 s2 : list A) :
  StronglySorted R s1 -> StronglySorted R s2 -> s1 ≡ₚ s2 ->
  (forall a b, a ∈ s1 -> b ∈ s1 -> R a b -> R b a -> a = b) ->
  s1 = s2.
Proof.
  revert s2. induction s1 as [|x s1 IH]; intros s2 H1 H2 Hp Hanti.
  - apply Permutation_nil in Hp. symmetry. exact Hp.
  - destruct s2 as [|y s2].
    { symmetry in Hp. apply Permutation_nil in Hp. discriminate. }
    inversion H1 as [|? ? H1' Hx]; subst. inversion H2 as [|? ? H2' Hy]; subst.
    rewrite Forall_forall in Hx, Hy.
    assert (Hxy : x = y).
    { assert (Hxin : x ∈ y :: s2) by (rewrite <- Hp; left).
      assert (Hyin : y ∈ x :: s1) by (rewrite Hp; left).
      apply elem_of_cons in Hxin as [E|Hxin]; [exact E|].
      apply elem_of_cons in Hyin as [E|Hyin]; [symmetry; exact E|].
      apply Hanti; [left | right; exact Hyin | apply Hx; exact Hyin
                   | apply Hy; exact Hxin]. }
    subst y. f_equal. apply IH; [exact H1' | exact H2' | |].
    + apply (Permutation_cons_inv Hp).
    + intros a b Ha Hb. apply Hanti; right; assumption.
Qed.

Lemma NoDup_map_inj {A B} (f : A -> B) (l : list A) (a b : A) :
  NoDup (map f l) -> a ∈ l -> b ∈ l -> f a = f b -> a = b.
Proof.
  induction l as [|x l IH]; intros Hnd Ha Hb E; [inversion Ha|].
  simpl in Hnd. apply NoDup_cons in Hnd as [Hx Hnd].
  assert (Hin : forall y, y ∈ l -> f y ∈ map f l).
  { intros y Hy. apply list_elem_of_fmap. exists y. split; [reflexivity | exact Hy]. }
  apply elem_of_cons in Ha as [->|Ha]; apply elem_of_cons in Hb as [->|Hb].
  - reflexivity.
  - exfalso. apply Hx. rewrite E. apply Hin. exact Hb.
  - exfalso. apply Hx. rewrite <- E. apply Hin. exact Ha.
  - apply IH; assumption.
Qed.

Lemma sort_byStart_perm (l1 l2 : list Item) :
  l1 ≡ₚ l2 -> NoDup (map startMin l1) ->
  sort_by byStart l1 = sort_by byStart l2.
Proof.
  intros Hp Hnd.
  apply (StronglySorted_perm_eq (fun a b => startMin a <= startMin b));
    try apply byStart_sorted.
  - rewrite !sort_by_perm. exact Hp.
  - intros a b Ha Hb Hab Hba. rewrite sort_by_perm in Ha, Hb.
    apply (NoDup_map_inj startMin l1); [assumption..|lia].
Qed.

Lemma sort_byStartThenLonger_perm (l1 l2 : list Item) :
  l1 ≡ₚ l2 -> NoDup (map (fun i => (startMin i, durationMin i)) l1) ->
  sort_by byStartThenLonger l1 = sort_by byStartThenLonger l2.
Proof.
  intros Hp Hnd.
  eapply StronglySorted_perm_eq; try apply byStartThenLonger_sorted.
  - rewrite !sort_by_perm. exact Hp.
  - intros a b Ha Hb Hab Hba. rewrite sort_by_perm in Ha, Hb. simpl in *.
    apply (NoDup_map_inj (fun i => (startMin i, durationMin i)) l1);
      [assumption..|].
    f_equal; lia.
Qed.

(** X16.  The text export does not depend on the order in which the items
    stand in the list, as long as no two items start at the same minute:
    two lists with the same items give the same lines and the same
    document. *)
Theorem exportText_order_free (timelineTitle formattedDate : string)
    (start : Clock) (l1 l2 : list Item) :
  l1 ≡ₚ l2 -> NoDup (map startMin l1) ->
  textLines start l1 = textLines start l2
  /\ exportText timelineTitle formattedDate start l1
     = exportText timelineTitle formattedDate start l2.
Proof.
  intros Hp Hnd.
  assert (H : textLines start l1 = textLines start l2).
  { unfold textLines. rewrite (sort_byStart_perm l1 l2 Hp Hnd). reflexivity. }
  split; [exact H|]. unfold exportText. rewrite H. reflexivity.
Qed.

Lemma exportText_order_free_witness :
  textLines (mkClock 11 0) threeOverlapping
  = textLines (mkClock 11 0)
      [sampleItem "b" 10 30; sampleItem "a" 0 30; sampleItem "c" 20 30].
Proof.
  destruct (exportText_order_free "" "" (mkClock 11 0) threeOverlapping
              [sampleItem "b" 10 30; sampleItem "a" 0 30; sampleItem "c" 20 30])
    as [H _].
  - apply perm_swap.
  - apply (bool_decide_unpack (NoDup (map startMin threeOverlapping))).
    vm_compute. reflexivity.
  - exact H.
Defined.

(** X17.  The lane layout does not depend on the order of the item list
    either, as long as no two items have both the same start and the same
    duration: two lists with the same items get the same lanes and the
    same lane count. *)
Theorem laneLayout_order_free (l1 l2 : list Item) :
  l1 ≡ₚ l2 -> NoDup (map (fun i => (startMin i, durationMin i)) l1) ->
  laneLayout l1 = laneLayout l2.
Proof.
  intros Hp Hnd. unfold laneLayout.
  rewrite (sort_byStartThenLonger_perm l1 l2 Hp Hnd). reflexivity.
Qed.

Lemma laneLayout_order_free_witness :
  laneLayout threeOverlapping
  = laneLayout [sampleItem "b" 10 30; sampleItem "a" 0 30; sampleItem "c" 20 30].
Proof.
  apply (laneLayout_order_free threeOverlapping
           [sampleItem "b" 10 30; sampleItem "a" 0 30; sampleItem "c" 20 30]).
  - apply perm_swap.
  - apply (bool_decide_unpack
             (NoDup (map (fun i => (startMin i, durationMin i)) threeOverlapping))).
    vm_compute. reflexivity.
Defined.

(** ** Colors and the layout *)

Lemma insert_by_Forall2 {A} (R : A -> A -> Prop) (cmp : A -> A -> Z)
    (x x' : A) (l l' : list A) :
  (forall a a' b b', R a a' -> R b b' -> cmp a b = cmp a' b') ->
  R x x' -> Forall2 R l l' ->
  Forall2 R (insert_by cmp x l) (insert_by cmp x' l').
Proof.
  intros Hc Hx H. induction H as [|y y' l l' Hy Hl IH]; simpl.
  - constructor; [exact Hx | constructor].
  - rewrite (Hc x x' y y' Hx Hy). destruct (cmp x' y' <=? 0).
    + constructor; [exact Hx|]. constructor; assumption.
    + constructor; assumption.
Qed.

Lemma sort_by_Forall2 {A} (R : A -> A -> Prop) (cmp : A -> A -> Z)
    (l l' : list A) :
  (forall a a' b b', R a a' -> R b b' -> cmp a b = cmp a' b') ->
  Forall2 R l l' -> Forall2 R (sort_by cmp l) (sort_by cmp l').
Proof.
  intros Hc H. induction H as [|x x' l l' Hx Hl IH]; simpl; [constructor|].
  apply insert_by_Forall2; assumption.
Qed.

Lemma Forall2_map_eq {A B} (R : A -> A -> Prop) (f : A -> B) (l l' : list A) :
  (forall a a', R a a' -> f a = f a') -> Forall2 R l l' -> map f l = map f l'.
Proof.
  intros Hf H. induction H as [|x x' l l' Hx Hl IH]; simpl; [reflexivity|].
  rewrite (Hf x x' Hx), IH. reflexivity.
Qed.

Lemma laneLoop_sameButColor (s s' : list Item) :
  Forall2 sameButColor s s' -> laneLoop s = laneLoop s'.
Proof.
  unfold laneLoop. generalize (@nil Z, @nil Placed).
  intros st H. revert st.
  induction H as [|x x' s s' Hx Hs IH]; intros st; simpl; [reflexivity|].
  rewrite <- IH. f_equal. destruct st as [ends placed].
  destruct Hx as (Hid & _ & Hst & Hdu & _).
  unfold placeItem. rewrite Hid, Hst, Hdu. reflexivity.
Qed.

Lemma imap_set_color_same (f : nat -> string) (l : list Item) :
  Forall2 sameButColor (imap (fun idx it => set_color (f idx) it) l) l.
Proof.
  revert f. induction l as [|x l IH]; intros f; simpl; [constructor|].
  constructor; [repeat split | apply (IH (f ∘ S))].
Qed.

Lemma sameButColor_refl (l : list Item) : Forall2 sameButColor l l.
Proof. induction l; constructor; [repeat split | assumption]. Qed.

Lemma applyPalette_same (colors : option (list string)) (l : list Item) :
  Forall2 sameButColor (applyPalette colors l) l.
Proof.
  destruct colors as [[|c0 cs]|].
  - apply sameButColor_refl.
  - rewrite applyPalette_cons.
    apply (imap_set_color_same
             (fun idx => (c0 :: cs) !!! (idx mod length (c0 :: cs))%nat)).
  - apply sameButColor_refl.
Qed.

(** X18.  A palette changes colors and nothing that depends on anything
    else: the lane layout, the lines of the text export and the events of
    the calendar export are the same before and after. *)
Theorem applyPalette_keeps_layout_and_exports
    (colors : option (list string)) (start : Clock) (l : list Item) :
  laneLayout (applyPalette colors l) = laneLayout l
  /\ textLines start (applyPalette colors l) = textLines start l
  /\ icsEvents start (applyPalette colors l) = icsEvents start l.
Proof.
  pose proof (applyPalette_same colors l) as H.
  split; [|split].
  - unfold laneLayout.
    rewrite (laneLoop_sameButColor
               (sort_by byStartThenLonger (applyPalette colors l))
               (sort_by byStartThenLonger l)); [reflexivity|].
    apply sort_by_Forall2; [|exact H].
    intros a a' b b' (_ & _ & Ha & Ha' & _) (_ & _ & Hb & Hb' & _).
    unfold byStartThenLonger. rewrite Ha, Ha', Hb, Hb'. reflexivity.
  - unfold textLines. f_equal.
    apply (Forall2_map_eq sameButColor).
    + intros a a' (_ & Ht & Hs & Hd & Hn).
      unfold textEntry, textBase. rewrite Ht, Hs, Hd, Hn. reflexivity.
    + apply sort_by_Forall2; [|exact H].
      intros a a' b b' (_ & _ & Ha & _) (_ & _ & Hb & _).
      unfold byStart. rewrite Ha, Hb. reflexivity.
  - unfold icsEvents. apply (Forall2_map_eq sameButColor); [|exact H].
    intros a a' (_ & Ht & Hs & Hd & Hn).
    unfold icsStart. rewrite Ht, Hs, Hd, Hn. reflexivity.
Qed.

(** ** What is drawn *)

Lemma same_lane_apart (l : list Item) (a b : Item) (j : nat) :
  (forall i, In i l -> 0 < durationMin i) -> NoDup (map id l) ->
  In a l -> In b l -> a <> b ->
  byId (laneLayout l) !! id a = Some j ->
  byId (laneLayout l) !! id b = Some j ->
  endMin a <= startMin b \/ endMin b <= startMin a.
Proof.
  intros Hpos Hnd Ha Hb Hab Hja Hjb.
  destruct (byId_assignment l Hpos Hnd) as (g & Hmem & Hby & Hpairs & _).
  apply Hmem in Ha as [ja Ha]. apply Hmem in Hb as [jb Hb].
  pose proof (Hby _ Ha) as Ha'. pose proof (Hby _ Hb) as Hb'. simpl in *.
  assert (ja = j) by congruence. assert (jb = j) by congruence. subst ja jb.
  destruct (ForallOrdPairs_In Hpairs _ _ Ha Hb) as [Heq|[H|H]].
  - inversion Heq. contradiction.
  - left. apply H. reflexivity.
  - right. apply H. reflexivity.
Qed.

Lemma lane_of_item (l : list Item) (i : Item) :
  In i l ->
  exists j : nat,
    byId (laneLayout l) !! id i = Some j /\ (j < lanesUsed l)%nat.
Proof.
  intros Hi. destruct (byId_defined l i Hi) as [j Hj].
  exists j. split; [exact Hj|]. apply byId_lane_lt in Hj as [H _]. exact H.
Qed.

(** The rounding at work.  A third of 100 and a tenth are the doubles
    JavaScript prints as 33.333333333333336 and 0.1; a tie between two
    doubles goes to the even significand. *)
Example roundDouble_values :
  roundDouble (100 / 3) == 4691249611844267 # 140737488355328
  /\ roundDouble (1 # 10) == 3602879701896397 # 36028797018963968
  /\ roundDouble (inject_Z 9007199254740993) == inject_Z 9007199254740992
  /\ roundDouble (inject_Z 9007199254740995) == inject_Z 9007199254740996
  /\ roundDouble (- (1 # 3)) == - (6004799503160661 # 18014398509481984)
  /\ roundDouble 100 == 100 /\ roundDouble (3 # 2) == 3 # 2.
Proof. repeat split; vm_compute; reflexivity. Qed.

(** With three lanes the rounded percentages do not add up to 100: the
    block in the last lane starts at 66.66666666666667 and is
    33.333333333333336 wide, which together pass 100 by a part in 2^47. *)
Example last_of_three_lanes_passes_100 :
  byId (laneLayout threeOverlapping) !! "c" = Some 2%nat
  /\ leftPct (blockOf sampleSettings (laneLayout threeOverlapping)
                (sampleItem "c" 20 30))
     + widthPct (blockOf sampleSettings (laneLayout threeOverlapping)
                   (sampleItem "c" 20 30))
     == 100 + (1 # 140737488355328).
Proof. split; vm_compute; reflexivity. Qed.

(** ** One lane *)

Lemma activeAt_pairwise (t : Z) (l : list Item) :
  ForallOrdPairs (fun a b => overlaps a b = false) l -> (activeAt t l <= 1)%nat.
Proof.
  unfold activeAt. induction 1 as [|a l Ha _ IH]; simpl; [lia|].
  destruct (active t a) eqn:Ea; [|exact IH]. simpl.
  assert (Hnone : List.filter (active t) l = []).
  { clear IH. induction l as [|b l IHl]; [reflexivity|].
    inversion Ha as [|? ? Hab Hl]; subst. simpl.
    destruct (active t b) eqn:Eb; [|apply IHl; exact Hl].
    exfalso. assert (Ho : overlaps a b = true).
    { apply overlaps_active. exists t. split; assumption. }
    congruence. }
  rewrite Hnone. simpl. lia.
Qed.

Lemma ForallOrdPairs_of_distinct {A} (R : A -> A -> Prop) (l : list A) :
  NoDup l -> (forall a b, In a l -> In b l -> a <> b -> R a b) ->
  ForallOrdPairs R l.
Proof.
  induction 1 as [|x l Hx Hnd IH]; intros H; constructor.
  - apply Forall_forall. intros y Hy. apply H.
    + left. reflexivity.
    + right. apply list_elem_of_In. exact Hy.
    + intros ->. contradiction.
  - apply IH. intros a b Ha Hb. apply H; right; assumption.
Qed.

Lemma lanesUsed_attained (l : list Item) :
  (forall i, In i l -> 0 < durationMin i) ->
  exists t : Z, activeAt t l = lanesUsed l.
Proof.
  intros Hpos.
  destruct (laneLoop_endsTrack (sort_by byStartThenLonger l)) as (_ & _ & [t Ht]).
  - apply sorted_by_start.
  - apply Forall_forall. intros i Hi. apply Hpos.
    apply (sort_by_In byStartThenLonger). apply list_elem_of_In. exact Hi.
  - exists t. rewrite <- (activeAt_perm t _ _ (sort_by_perm byStartThenLonger l)).
    exact Ht.
Qed.

(** X21.  The timeline has a single lane exactly when no two items
    overlap (for items with positive durations and distinct ids).  Then
    every item is in lane 0 and its block takes the whole width. *)
Theorem one_lane_iff_no_overlap (c : Settings) (l : list Item) :
  (forall i, In i l -> 0 < durationMin i) -> NoDup (map id l) ->
  (lanesCount (laneLayout l) = 1
   <-> forall a b : Item, In a l -> In b l -> a <> b -> overlaps a b = false)
  /\ (lanesCount (laneLayout l) = 1 ->
      forall i : Item,
        In i l ->
        byId (laneLayout l) !! id i = Some 0%nat
        /\ leftPct (blockOf c (laneLayout l) i) == 0
        /\ widthPct (blockOf c (laneLayout l) i) == 100).
Proof.
  intros Hpos Hnd.
  assert (Hzero : lanesCount (laneLayout l) = 1 ->
                  forall i, In i l -> byId (laneLayout l) !! id i = Some 0%nat).
  { intros H1 i Hi. destruct (lane_of_item l i Hi) as (j & Hj & Hlt).
    rewrite lanesCount_eq in H1. replace j with 0%nat in Hj by lia. exact Hj. }
  split; [split|].
  - intros H1 a b Ha Hb Hab. apply overlaps_false.
    apply (same_lane_apart l a b 0%nat); auto.
  - intros Hno. rewrite lanesCount_eq.
    destruct (lanesUsed_attained l Hpos) as [t Ht].
    assert (Hle : (activeAt t l <= 1)%nat).
    { apply activeAt_pairwise. apply ForallOrdPairs_of_distinct; [|exact Hno].
      apply (NoDup_fmap_1 id). exact Hnd. }
    lia.
  - intros H1 i Hi. split; [apply Hzero; assumption|].
    unfold blockOf. simpl. rewrite (Hzero H1 i Hi), H1. simpl.
    split; reflexivity.
Qed.

Lemma one_lane_iff_no_overlap_witness :
  lanesCount (laneLayout twoTouching) = 1
  /\ widthPct (blockOf sampleSettings (laneLayout twoTouching) (sampleItem "b" 30 30))
     == 100.
Proof.
  assert (Hpos : forall i, In i twoTouching -> 0 < durationMin i).
  { simpl. intros i Hi. intuition (subst; simpl; lia). }
  assert (Hnd : NoDup (map id twoTouching)).
  { apply (bool_decide_unpack (NoDup (map id twoTouching))).
    vm_compute. reflexivity. }
  destruct (one_lane_iff_no_overlap sampleSettings twoTouching Hpos Hnd)
    as [[_ H1] H2].
  assert (Hone : lanesCount (laneLayout twoTouching) = 1).
  { apply H1. simpl. intros a b Ha Hb Hab.
    intuition (subst; try contradiction; reflexivity). }
  split; [exact Hone|].
  destruct (H2 Hone (sampleItem "b" 30 30)) as (_ & _ & Hw).
  - simpl. right. left. reflexivity.
  - exact Hw.
Defined.

(** ** Grid lines *)

(** X22.  Under a positive zoom and slot size the grid has one line per
    whole slot of the schedule and one more; line [k] lies [k] slots below
    the top; every line lies between the top and the bottom of the grid;
    and one more line would lie below the bottom. *)
Theorem gridLines_on_grid (c : Settings) :
  (0 < pxPerMin c)%Q -> 0 < slotSize c ->
  length (gridLines c) = Z.to_nat (totalMinutes c / slotSize c + 1)
  /\ (forall (k : nat) (y : Q),
        gridLines c !! k = Some y ->
        y == inject_Z (Z.of_nat k * slotSize c) * pxPerMin c
        /\ (0 <= y)%Q /\ (y <= gridHeight c)%Q)
  /\ (gridHeight c
      < inject_Z ((totalMinutes c / slotSize c + 1) * slotSize c) * pxPerMin c)%Q.
Proof.
  intros Hpx Hs. pose proof (totalMinutes_range c) as Ht.
  unfold gridLines. rewrite Qfloor_div_Z.
  set (q := totalMinutes c / slotSize c).
  assert (Hq : 0 <= q) by (apply Z.div_pos; lia).
  pose proof (Z.mul_div_le (totalMinutes c) (slotSize c) Hs) as Hlo.
  pose proof (Z.mul_succ_div_gt (totalMinutes c) (slotSize c) Hs) as Hhi.
  fold q in Hlo, Hhi.
  split; [rewrite length_map, length_seq; reflexivity|]. split.
  - intros k y Hk. rewrite list_lookup_fmap in Hk.
    destruct (seq 0 (Z.to_nat (q + 1)) !! k) as [k'|] eqn:E; [|discriminate].
    apply lookup_seq in E as [-> Hlt]. simpl in Hk. inversion Hk; subst y.
    assert (E : (inject_Z (Z.of_nat k) * inject_Z (slotSize c) * pxPerMin c
                 == inject_Z (Z.of_nat k * slotSize c) * pxPerMin c)%Q)
      by (rewrite inject_Z_mult; reflexivity).
    split; [exact E|]. rewrite E. split.
    + apply Qmult_le_0_compat; [|apply Qlt_le_weak; exact Hpx].
      change 0%Q with (inject_Z 0). rewrite <- Zle_Qle. nia.
    + unfold gridHeight. apply Qmult_le_compat_r; [|apply Qlt_le_weak; exact Hpx].
      rewrite <- Zle_Qle. nia.
  - unfold gridHeight. apply Qmult_lt_compat_r; [exact Hpx|].
    rewrite <- Zlt_Qlt. nia.
Qed.

Lemma gridLines_on_grid_witness :
  length (gridLines sampleSettings) = 37%nat
  /\ (gridHeight sampleSettings
      < inject_Z ((totalMinutes sampleSettings / slotSize sampleSettings + 1)
                  * slotSize sampleSettings) * pxPerMin sampleSettings)%Q.
Proof.
  destruct (gridLines_on_grid sampleSettings) as (H1 & _ & H3).
  - reflexivity.
  - reflexivity.
  - split; [exact H1 | exact H3].
Defined.

(** ** First fit *)

Lemma findIndex_Some_first {A} (p : A -> bool) (l : list A) (j : nat) :
  findIndex p l = Some j ->
  forall j', (j' < j)%nat -> exists x, l !! j' = Some x /\ p x = false.
Proof.
  revert j. induction l as [|y l IH]; intros j H; simpl in H; [discriminate|].
  destruct (p y) eqn:Hy.
  - inversion H; subst. intros j' Hj'. lia.
  - destruct (findIndex p l) as [j0|] eqn:E; [|discriminate].
    inversion H; subst. intros [|j'] Hj'.
    + exists y. split; [reflexivity | exact Hy].
    + simpl. apply (IH j0 eq_refl). lia.
Qed.

Lemma placeItem_firstFit (s : list Item) (st : list Z * list Placed) (x : Item) :
  firstFit s st ->
  Forall (fun y => byStartThenLonger y x <= 0) s ->
  firstFit (s ++ [x]) (placeItem st x).
Proof.
  destruct st as [ends placed].
  intros (g & Hg & Hpl & Hlast & Hfit) Hsorted. simpl in *.
  assert (Hbefore : forall q, In q g -> byStartThenLonger q.1 x <= 0).
  { intros q Hq. rewrite Forall_forall in Hsorted. apply Hsorted.
    rewrite <- Hg. apply list_elem_of_In. apply in_map. exact Hq. }
  assert (Hkeep : forall (j0 : nat),
             Forall (fun q =>
                 forall j', (j' < q.2)%nat ->
                   exists q', In q' (g ++ [(x, j0)]) /\ q'.2 = j'
                              /\ byStartThenLonger q'.1 q.1 <= 0
                              /\ startMin q.1 < endMin q'.1) g).
  { intros j0. eapply Forall_impl; [exact Hfit|]. intros q Hq j' Hj'. simpl in *.
    destruct (Hq j' Hj') as (q' & Hin & Hrest).
    exists q'. split; [apply in_or_app; left; exact Hin | exact Hrest]. }
  unfold placeItem. fold (endMin x).
  destruct (findIndex _ ends) as [j|] eqn:E.
  - pose proof (findIndex_Some_first _ _ _ E) as Hfirst.
    apply findIndex_Some in E as (e & He & Hfree).
    pose proof (lookup_lt_Some _ _ _ He) as Hj.
    exists (g ++ [(x, j)]). simpl. split; [rewrite map_app, Hg; reflexivity|].
    split; [rewrite map_app, Hpl; reflexivity|]. split.
    + intros j0. rewrite length_insert. intros Hj0.
      destruct (decide (j0 = j)) as [->|Hne].
      * exists (x, j). split; [apply in_or_app; right; left; reflexivity|].
        split; [reflexivity|]. simpl. apply list_lookup_insert_eq. exact Hj.
      * destruct (Hlast j0 Hj0) as (q & Hq & Hqj & Hqe).
        exists q. split; [apply in_or_app; left; exact Hq|].
        split; [exact Hqj|]. rewrite list_lookup_insert_ne by congruence.
        exact Hqe.
    + apply Forall_app. split; [apply Hkeep|].
      constructor; [|constructor]. simpl. intros j' Hj'.
      destruct (Hfirst j' Hj') as (e' & He' & Hbusy).
      apply Z.leb_gt in Hbusy.
      destruct (Hlast j' ltac:(lia)) as (q' & Hq' & Hqj & Hqe).
      exists q'. split; [apply in_or_app; left; exact Hq'|].
      split; [exact Hqj|]. split; [apply Hbefore; exact Hq'|].
      rewrite Hqe in He'. inversion He'. lia.
  - apply findIndex_None in E. rewrite Forall_forall in E.
    exists (g ++ [(x, length ends)]). simpl.
    split; [rewrite map_app, Hg; reflexivity|].
    split; [rewrite map_app, Hpl; reflexivity|]. split.
    + intros j0. rewrite length_app. simpl. intros Hj0.
      destruct (decide (j0 = length ends)) as [->|Hne].
      * exists (x, length ends).
        split; [apply in_or_app; right; left; reflexivity|].
        split; [reflexivity|]. simpl. apply list_lookup_middle. reflexivity.
      * destruct (Hlast j0 ltac:(lia)) as (q & Hq & Hqj & Hqe).
        exists q. split; [apply in_or_app; left; exact Hq|].
        split; [exact Hqj|]. apply lookup_app_l_Some. exact Hqe.
    + apply Forall_app. split; [apply Hkeep|].
      constructor; [|constructor]. simpl. intros j' Hj'.
      destruct (Hlast j' Hj') as (q' & Hq' & Hqj & Hqe).
      exists q'. split; [apply in_or_app; left; exact Hq'|].
      split; [exact Hqj|]. split; [apply Hbefore; exact Hq'|].
      assert (Hb : (endMin q'.1 <=? startMin x) = false).
      { apply E. apply list_elem_of_lookup. exists j'. exact Hqe. }
      apply Z.leb_gt in Hb. exact Hb.
Qed.

Lemma laneLoop_firstFit (s : list Item) :
  StronglySorted (fun a b => byStartThenLonger a b <= 0) s ->
  firstFit s (laneLoop s).
Proof.
  induction s as [|x s IH] using rev_ind; intros Hs.
  - exists []. simpl. repeat split; try constructor.
    intros j Hj. simpl in Hj. lia.
  - rewrite laneLoop_snoc.
    apply StronglySorted_snoc_inv in Hs as [Hs Hlast].
    apply placeItem_firstFit; [apply IH; exact Hs | exact Hlast].
Qed.

Lemma sorted_by_cmp (l : list Item) :
  StronglySorted (fun a b => byStartThenLonger a b <= 0)
                 (sort_by byStartThenLonger l).
Proof.
  apply sort_by_sorted.
  - intros a b. unfold byStartThenLonger.
    destruct (Z.eqb_spec (startMin a - startMin b) 0);
      destruct (Z.eqb_spec (startMin b - startMin a) 0); lia.
  - intros a b c. rewrite !byStartThenLonger_le. lia.
Qed.

Lemma byId_firstFit (l : list Item) (a : Item) (j j' : nat) :
  NoDup (map id l) -> In a l ->
  byId (laneLayout l) !! id a = Some j -> (j' < j)%nat ->
  exists b : Item,
    In b l /\ byId (laneLayout l) !! id b = Some j'
    /\ byStartThenLonger b a <= 0 /\ startMin a < endMin b.
Proof.
  intros Hnd Ha Hj Hj'.
  set (s := sort_by byStartThenLonger l).
  destruct (laneLoop_firstFit s (sorted_by_cmp l)) as (g & Hg & Hpl & _ & Hfit).
  assert (Hby : forall q, In q g -> byId (laneLayout l) !! id q.1 = Some q.2).
  { intros q Hq. rewrite byId_eq. fold s. rewrite Hpl.
    apply fromEntries_lookup_NoDup.
    - assert (Hk : (map (fun p => (placedId p, lane p))
                      (map (fun q => mkPlaced (id q.1) q.2) g)).*1
                   = map id s).
      { rewrite <- Hg. clear. induction g as [|q g IH]; [reflexivity|].
        simpl. f_equal. exact IH. }
      rewrite Hk. change (NoDup (id <$> s)).
      unfold s. rewrite (sort_by_perm byStartThenLonger l). exact Hnd.
    - apply list_elem_of_In. rewrite map_map. simpl.
      apply in_map_iff. exists q. split; [reflexivity | exact Hq]. }
  assert (Hin : forall q, In q g -> In q.1 l).
  { intros q Hq. apply (sort_by_In byStartThenLonger). fold s. rewrite <- Hg.
    apply in_map. exact Hq. }
  assert (Hag : exists ja, In (a, ja) g).
  { apply (sort_by_In byStartThenLonger) in Ha. fold s in Ha. rewrite <- Hg in Ha.
    apply in_map_iff in Ha as ([a' ja] & E & Hq). simpl in E. subst a'.
    exists ja. exact Hq. }
  destruct Hag as [ja Hq].
  pose proof (Hby _ Hq) as Hja. simpl in Hja.
  assert (ja = j) by congruence. subst ja.
  rewrite Forall_forall in Hfit.
  destruct (Hfit (a, j) ltac:(apply list_elem_of_In; exact Hq) j' Hj')
    as (q' & Hq' & Hqj & Hcmp & Hact). simpl in *.
  exists q'.1. split; [apply Hin; exact Hq'|].
  split; [rewrite <- Hqj; apply Hby; exact Hq'|]. split; assumption.
Qed.

(** X23.  Lanes are filled from the left: an item sits in lane [j] only if
    every lane left of [j] is taken at the item's start, by an item that
    the sweep places no later (it starts earlier, or at the same minute and
    is at least as long) and that has not ended by then.  This holds for
    item lists with distinct ids. *)
Theorem laneLayout_first_fit (l : list Item) (a : Item) (j j' : nat) :
  NoDup (map id l) -> In a l ->
  byId (laneLayout l) !! id a = Some j -> (j' < j)%nat ->
  exists b : Item,
    In b l /\ byId (laneLayout l) !! id b = Some j'
    /\ (startMin b < startMin a
        \/ (startMin b = startMin a /\ durationMin a <= durationMin b))
    /\ startMin b <= startMin a < endMin b.
Proof.
  intros Hnd Ha Hj Hj'.
  destruct (byId_firstFit l a j j' Hnd Ha Hj Hj') as (b & Hb & Hjb & Hcmp & Hact).
  exists b. split; [exact Hb|]. split; [exact Hjb|].
  apply byStartThenLonger_le in Hcmp. split; [exact Hcmp | lia].
Qed.

Lemma laneLayout_first_fit_witness :
  exists b : Item,
    In b threeOverlapping
    /\ byId (laneLayout threeOverlapping) !! id b = Some 1%nat
    /\ (startMin b < startMin (sampleItem "c" 20 30)
        \/ (startMin b = startMin (sampleItem "c" 20 30)
            /\ durationMin (sampleItem "c" 20 30) <= durationMin b))
    /\ startMin b <= startMin (sampleItem "c" 20 30) < endMin b.
Proof.
  apply (laneLayout_first_fit threeOverlapping (sampleItem "c" 20 30) 2 1).
  - apply (bool_decide_unpack (NoDup (map id threeOverlapping))).
    vm_compute. reflexivity.
  - simpl. right. right. left. reflexivity.
  - reflexivity.
  - lia.
Defined.

(** X24.  Of two items that start at the same minute the longer one gets
    the lane further left (for items with positive durations and distinct
    ids). *)
Theorem longer_item_goes_left (l : list Item) (a b : Item) (ja jb : nat) :
  (forall i, In i l -> 0 < durationMin i) -> NoDup (map id l) ->
  In a l -> In b l ->
  startMin a = startMin b -> durationMin b < durationMin a ->
  byId (laneLayout l) !! id a = Some ja ->
  byId (laneLayout l) !! id b = Some jb ->
  (ja < jb)%nat.
Proof.
  intros Hpos Hnd Ha Hb Hs Hd Hja Hjb.
  pose proof (Hpos a Ha) as Hpa. pose proof (Hpos b Hb) as Hpb.
  assert (Hab : a <> b) by (intros ->; lia).
  destruct (lt_eq_lt_dec ja jb) as [[Hlt|Heq]|Hgt]; [exact Hlt| |].
  - exfalso. subst jb.
    destruct (same_lane_apart l a b ja Hpos Hnd Ha Hb Hab Hja Hjb) as [H|H];
      unfold endMin in H; lia.
  - exfalso.
    destruct (byId_firstFit l a ja jb Hnd Ha Hja Hgt)
      as (c & Hc & Hjc & Hcmp & Hact).
    apply byStartThenLonger_le in Hcmp.
    destruct (string_dec (id c) (id b)) as [E|E].
    + assert (c = b) by (apply (NoDup_ids_inj l); assumption). subst c. lia.
    + assert (Hcb : c <> b) by (intros ->; apply E; reflexivity).
      destruct (same_lane_apart l c b jb Hpos Hnd Hc Hb Hcb Hjc Hjb) as [H|H];
        unfold endMin in *; pose proof (Hpos c Hc); lia.
Qed.

Lemma longer_item_goes_left_witness :
  (0 < 1)%nat
  /\ byId (laneLayout [sampleItem "short" 0 15; sampleItem "long" 0 45])
       !! "long" = Some 0%nat.
Proof.
  split.
  - apply (longer_item_goes_left
             [sampleItem "short" 0 15; sampleItem "long" 0 45]
             (sampleItem "long" 0 45) (sampleItem "short" 0 15) 0 1).
    + simpl. intros i Hi. intuition (subst; simpl; lia).
    + apply (bool_decide_unpack
               (NoDup (map id [sampleItem "short" 0 15; sampleItem "long" 0 45]))).
      vm_compute. reflexivity.
    + simpl. right. left. reflexivity.
    + simpl. left. reflexivity.
    + reflexivity.
    + simpl. lia.
    + reflexivity.
    + reflexivity.
  - reflexivity.
Defined.
